(** * Conversational booking assistant: the stage machine and its helpers

    A shallow embedding of the message handlers of the repository
    (src/backend/serverv3.js and the server variants kept in src/unnamed),
    with the regular expressions, the phone normaliser and the session
    store they use, followed by the properties of the specification.

    JavaScript strings are modelled as lists of characters ([text]); the
    character tests below are the ASCII ones ([\d], [\s], [\b] and
    [toLowerCase] restricted to code units below 128), the reply constants
    carry their non-ASCII characters as bytes. *)

From Stdlib Require Import Ascii String List NArith Lia DecimalString.
From stdpp Require Import gmap strings list.

Open Scope string_scope.
Open Scope list_scope.

(* ===================================================================== *)
(** ** Text *)
(* ===================================================================== *)

Abbreviation text := (list ascii).

(** A string literal of the source as a [text]. *)
Definition js (s : string) : text := list_ascii_of_string s.

Definition code (c : ascii) : N := N_of_ascii c.

(** [\d] *)
Definition isDigit (c : ascii) : bool :=
  (48 <=? code c)%N && (code c <=? 57)%N.

(** [\s] on the ASCII range: tab, line feed, vertical tab, form feed,
    carriage return, space. *)
Definition isSpace (c : ascii) : bool :=
  ((9 <=? code c)%N && (code c <=? 13)%N) || (code c =? 32)%N.

Definition isUpper (c : ascii) : bool :=
  (65 <=? code c)%N && (code c <=? 90)%N.

Definition isLower (c : ascii) : bool :=
  (97 <=? code c)%N && (code c <=? 122)%N.

(** [\w], the word characters that decide [\b]. *)
Definition isWordChar (c : ascii) : bool :=
  isDigit c || isUpper c || isLower c || (code c =? 95)%N.

Definition isChar (a : ascii) (c : ascii) : bool :=
  (code c =? code a)%N.

(** [[^\s@]] *)
Definition notSpaceAt (c : ascii) : bool :=
  negb (isSpace c) && negb (isChar "@" c).

Definition lowerChar (c : ascii) : ascii :=
  if isUpper c then ascii_of_N (code c + 32) else c.

(** [String.prototype.toLowerCase] *)
Definition toLowerCase (s : text) : text := lowerChar <$> s.

Fixpoint dropWhile (p : ascii -> bool) (s : text) : text :=
  match s with
  | c :: s' => if p c then dropWhile p s' else s
  | [] => []
  end.

(** [String.prototype.trim] *)
Definition trim (s : text) : text :=
  rev (dropWhile isSpace (rev (dropWhile isSpace s))).

(** [s.startsWith(p)]: the rest of [s] after the prefix [p]. *)
Fixpoint stripPrefix (p s : text) : option text :=
  match p, s with
  | [], _ => Some s
  | a :: p', c :: s' => if (code a =? code c)%N then stripPrefix p' s' else None
  | _ :: _, [] => None
  end.

Definition startsWith (p s : text) : bool :=
  match stripPrefix p s with Some _ => true | None => false end.

(** [s.includes(p)] *)
Fixpoint includes (p s : text) : bool :=
  startsWith p s ||
  match s with
  | _ :: s' => includes p s'
  | [] => false
  end.

(** [parseInt] of a run of decimal digits. *)
Definition digitValue (c : ascii) : N := (code c - 48)%N.

Definition parseInt (s : text) : N :=
  fold_left (fun acc c => (10 * acc + digitValue c)%N) s 0%N.

(** [Number.prototype.toString] of a non-negative integer. *)
Definition numberToText (n : N) : text :=
  js (NilZero.string_of_uint (N.to_uint n)).

(* ===================================================================== *)
(** ** Regular expressions

    The fragment the handlers use: character classes, sequencing, the
    greedy optional group and the greedy bounded or unbounded repetition
    of a class.  [run] is the backtracking matcher at one position,
    [search] is [String.prototype.match] without the [g] flag: the
    leftmost position at which [run] succeeds, and there the first match
    in backtracking order. *)
(* ===================================================================== *)

Inductive regex : Type :=
| Cls (p : ascii -> bool)
| Seq (r1 r2 : regex)
| Opt (r : regex)
| Rep (p : ascii -> bool) (lo : nat) (hi : option nat).

Declare Scope regex_scope.
Delimit Scope regex_scope with re.
Bind Scope regex_scope with regex.
Infix "·" := Seq (at level 41, right associativity) : regex_scope.

Definition Chr (a : ascii) : regex := Cls (isChar a).

Definition hiAllows (hi : option nat) : bool :=
  match hi with Some 0 => false | _ => true end.

(** Greedy repetition of a class, between [lo] and [hi] characters
    ([hi = None]: unbounded), then the continuation [k]; the longest run
    is tried first and shortened until [k] accepts. *)
Fixpoint rep {R} (p : ascii -> bool) (lo : nat) (hi : option nat)
    (s : text) (k : text -> option R) : option R :=
  let stop := match lo with 0 => k s | S _ => None end in
  match s with
  | c :: s' =>
      if p c && hiAllows hi then
        match rep p (pred lo) (pred <$> hi) s' k with
        | Some x => Some x
        | None => stop
        end
      else stop
  | [] => stop
  end.

Fixpoint run {R} (r : regex) (s : text) (k : text -> option R) : option R :=
  match r with
  | Cls p =>
      match s with
      | c :: s' => if p c then k s' else None
      | [] => None
      end
  | Seq r1 r2 => run r1 s (fun s1 => run r2 s1 k)
  | Opt r1 =>
      match run r1 s k with
      | Some x => Some x
      | None => k s
      end
  | Rep p lo hi => rep p lo hi s k
  end.

(** A match of [r] anchored at the head of [s]: the matched text and what
    follows it. *)
Definition exec (r : regex) (s : text) : option (text * text) :=
  match run r s Some with
  | Some rest => Some (take (length s - length rest) s, rest)
  | None => None
  end.

(** The result of [s.match(r)]: the text before the match, the match
    ([m[0]]) and the text after it. *)
Record found := Found { before : text; matched : text; after : text }.

Fixpoint search (r : regex) (s : text) : option found :=
  match exec r s with
  | Some (m, rest) => Some (Found [] m rest)
  | None =>
      match s with
      | c :: s' =>
          match search r s' with
          | Some f => Some (Found (c :: before f) (matched f) (after f))
          | None => None
          end
      | [] => None
      end
  end.

(** The language of a regular expression. *)
Inductive Matches : regex -> text -> Prop :=
| MCls p c : p c = true -> Matches (Cls p) [c]
| MSeq r1 r2 s1 s2 :
    Matches r1 s1 -> Matches r2 s2 -> Matches (Seq r1 r2) (s1 ++ s2)
| MOptSkip r : Matches (Opt r) []
| MOptTake r s : Matches r s -> Matches (Opt r) s
| MRep p lo hi s :
    Forall (fun c => p c = true) s ->
    lo <= length s ->
    (forall h, hi = Some h -> length s <= h) ->
    Matches (Rep p lo hi) s.

(** [s] has a substring in the language of [r]. *)
Definition Contains (r : regex) (s : text) : Prop :=
  exists pre m post, s = pre ++ m ++ post /\ Matches r m.

(** The patterns of the handlers. *)

(** [/\d{1,2}\.\d{1,2}\.\d{4}/] *)
Definition dateRe : regex :=
  (Rep isDigit 1 (Some 2) · Chr "." · Rep isDigit 1 (Some 2) · Chr "." ·
   Rep isDigit 4 (Some 4))%re.

(** [/\d{1,2}(:\d{2})?/] *)
Definition timeRe : regex :=
  (Rep isDigit 1 (Some 2) · Opt (Chr ":" · Rep isDigit 2 (Some 2)))%re.

(** [/\d+/] *)
Definition durationRe : regex := Rep isDigit 1 None.

(** [/[^\s@]+@[^\s@]+\.[^\s@]+/] *)
Definition emailRe : regex :=
  (Rep notSpaceAt 1 None · Chr "@" · Rep notSpaceAt 1 None · Chr "." ·
   Rep notSpaceAt 1 None)%re.

Definition matchOf (r : regex) (s : text) : option text :=
  matched <$> search r s.

Fixpoint takeWhile (p : ascii -> bool) (s : text) : text :=
  match s with
  | c :: s' => if p c then c :: takeWhile p s' else []
  | [] => []
  end.

(** The capture groups of [/(\d{1,2})(?::(\d{2}))?/] read off the match
    [m[0]]: [m[1]] is the run of digits before the colon, [m[2]] the two
    digits after it, undefined when the optional part did not match. *)
Definition hourGroup (m : text) : text := takeWhile isDigit m.

Definition minuteGroup (m : text) : option text :=
  match dropWhile isDigit m with
  | _ :: rest => Some rest
  | [] => None
  end.

(* ===================================================================== *)
(** ** Filler words

    [message.replace(/\b(um|gegen|Uhr)\b/gi, empty)]: every occurrence of one of
    the three words that stands between word boundaries is removed; the
    scan goes on behind a removed word, and the boundary tests read the
    original string. *)
(* ===================================================================== *)

Fixpoint stripPrefixCI (p s : text) : option text :=
  match p, s with
  | [], _ => Some s
  | a :: p', c :: s' =>
      if (code (lowerChar a) =? code (lowerChar c))%N
      then stripPrefixCI p' s' else None
  | _ :: _, [] => None
  end.

(** [\b] between the previous character and a word character. *)
Definition boundaryBefore (prev : option ascii) : bool :=
  match prev with
  | Some c => negb (isWordChar c)
  | None => true
  end.

(** [\b] between a word character and the rest of the string. *)
Definition boundaryAfter (rest : text) : bool :=
  match rest with
  | c :: _ => negb (isWordChar c)
  | [] => true
  end.

Definition wordAt (w : string) (s : text) : option nat :=
  match stripPrefixCI (js w) s with
  | Some rest => if boundaryAfter rest then Some (length (js w)) else None
  | None => None
  end.

(** The length of the filler word that [/\b(um|gegen|Uhr)\b/i] matches at
    this position, the alternatives tried in their order. *)
Definition fillerAt (prev : option ascii) (s : text) : option nat :=
  if boundaryBefore prev then
    match wordAt "um" s with
    | Some n => Some n
    | None =>
        match wordAt "gegen" s with
        | Some n => Some n
        | None => wordAt "Uhr" s
        end
    end
  else None.

(** [skip] characters of a matched word are still to be dropped. *)
Fixpoint removeFrom (skip : nat) (prev : option ascii) (s : text) : text :=
  match s with
  | [] => []
  | c :: s' =>
      match skip with
      | S n => removeFrom n (Some c) s'
      | 0 =>
          match fillerAt prev s with
          | Some (S n) => removeFrom n (Some c) s'
          | _ => c :: removeFrom 0 (Some c) s'
          end
      end
  end.

Definition removeFillers (message : text) : text := removeFrom 0 None message.

(* ===================================================================== *)
(** ** Phone numbers *)
(* ===================================================================== *)

(** [normalizePhone], with the configured [DEFAULT_COUNTRY] prefix as a
    parameter. *)
Definition normalizePhone (DEFAULT_COUNTRY : text) (phone : text) : text :=
  match phone with
  | [] => phone
  | _ :: _ =>
      let phone := trim phone in
      if startsWith (js "+") phone then phone
      else
        let cleaned := List.filter (fun c => isDigit c) phone in
        DEFAULT_COUNTRY ++ cleaned
  end.

(* ===================================================================== *)
(** ** Sessions *)
(* ===================================================================== *)

(** The values the handlers store in [session.data]: strings and the number
    [parseInt] returns.  A number stands for the double nearest to it; only
    whether it is zero is ever tested. *)
Inductive value : Type :=
| VStr (s : text)
| VNum (n : N).

(** JavaScript truthiness of [data.field]; an absent field is [undefined]. *)
Definition truthy (v : option value) : bool :=
  match v with
  | Some (VStr []) => false
  | Some (VStr (_ :: _)) => true
  | Some (VNum n) => negb (n =? 0)%N
  | None => false
  end.

(** A field interpolated in a template literal. *)
Definition display (v : option value) : text :=
  match v with
  | Some (VStr s) => s
  | Some (VNum n) => numberToText n
  | None => js "undefined"
  end.

Inductive Stage : Type :=
| start
| awaiting_date
| awaiting_time
| awaiting_duration
| awaiting_email
| creating
| completed.

#[global] Instance Stage_eq_dec : EqDecision Stage.
Proof. solve_decision. Defined.

Record Session : Type := mkSession {
  stage : Stage;
  data : gmap string value
}.

(** [{ stage: "start", data: {} }] *)
Definition freshSession : Session := mkSession start ∅.

(** [session.stage = st] *)
Definition setStage (st : Stage) (s : Session) : Session :=
  mkSession st (data s).

(** [session.data[k] = v] *)
Definition setData (k : string) (v : value) (s : Session) : Session :=
  mkSession (stage s) (<[k := v]> (data s)).

(** [if (m) session.data[k] = m[0]] *)
Definition storeMatch (k : string) (m : option text) (s : Session) : Session :=
  match m with
  | Some m0 => setData k (VStr m0) s
  | None => s
  end.

(** The process-wide [sessions] map, keyed by user identifier. *)
Abbreviation store := (gmap text Session).

(** [sessions.get(key) || { stage: "start", data: {} }] *)
Definition sessionOf (sessions : store) (key : text) : Session :=
  default freshSession (sessions !! key).

(* ===================================================================== *)
(** ** The world outside the process

    One turn reads the token file and may call the calendar, the completion
    service and the SMS provider.  Their answers are the fields of a
    [world]; [None] stands for a call that throws. *)
(* ===================================================================== *)

(** What [events.insert] returns, as far as the handlers read it:
    [hangoutLink] and [conferenceData.entryPoints[0].uri]. *)
Record event : Type := Event {
  hangoutLink : option text;
  entryPointUri : option text
}.

Record world : Type := World {
  (** [loadToken()] returns a token *)
  tokens : bool;
  (** [process.env.DEFAULT_COUNTRY_CODE || "+49"] *)
  DEFAULT_COUNTRY : text;
  (** [process.env.BOT_NAME || ...] *)
  BOT_NAME : text;
  (** The [Date] arithmetic of [parseGermanDateTime], the end instant and
      [toLocalISOStringWithOffset] on a date text, a time text and the
      duration: the pair [(startIso, endIso)].  It depends on the time zone
      of the host and on floating point. *)
  isoInstants : text -> text -> option value -> option (text * text);
  (** [isSlotFree(oauth2Client, startIso, endIso)] *)
  isSlotFree : text -> text -> option bool;
  (** [createEvent(oauth2Client, {summary, startIso, endIso, attendeeEmail})] *)
  createEvent : text -> text -> text -> option value -> option event;
  (** [openai.chat.completions.create] on a prompt: the content of the first
      choice, [Some None] when the answer has none *)
  completion : text -> option (option text);
  (** [sendSms(to, body)] went through *)
  sendSms : text -> text -> bool
}.

(** [a || b] on strings that may be undefined. *)
Definition orElse (a : option text) (b : text) : text :=
  match a with
  | Some (c :: s) => c :: s
  | _ => b
  end.

Definition nl : text := ["010"%char].
Definition quote : text := ["034"%char].

(* ===================================================================== *)
(** ** src/backend/serverv3.js: [handleUserMessage] for chat and SMS *)
(* ===================================================================== *)

Module ServerV3.

Definition notConnected : text :=
  js "❌ Bot ist nicht verbunden. Bitte Google Setup durchführen.".
Definition askDateFormat : text :=
  js "Klar! Für wann möchten Sie den Termin vereinbaren? (TT.MM.JJJJ)".
Definition askDate : text :=
  js "Für wann möchten Sie den Termin vereinbaren? (TT.MM.JJJJ)".
Definition askTime (date : option value) : text :=
  js "Super! Zu welcher Uhrzeit am " ++ display date ++
  js " würde es Ihnen passen?".
Definition askDuration : text :=
  js "Perfekt! Wie lange soll das Meeting dauern? (z. B. 30 oder 60 Minuten)".
Definition askTimeAgain : text :=
  js "Bitte geben Sie eine Uhrzeit an, z. B. 10:00 Uhr.".
Definition askEmail : text :=
  js "Alles klar. Bitte geben Sie Ihre E-Mail-Adresse an, damit ich den Termin eintragen kann.".
Definition askDurationAgain : text :=
  js "Wie lange soll der Termin dauern (in Minuten)?".
Definition checking : text :=
  js "Einen Moment, ich prüfe, ob der Termin verfügbar ist …".
Definition askEmailAgain : text :=
  js "Bitte geben Sie eine gültige E-Mail-Adresse an.".
Definition missingInfo : text :=
  js "❌ Es fehlen noch Informationen. Bitte geben Sie Datum, Uhrzeit, Dauer und E-Mail an.".
Definition slotTaken : text :=
  js "⚠️ Dieser Zeitraum ist leider schon belegt. Bitte schlagen Sie eine andere Zeit vor.".
Definition genericError : text :=
  js "❌ Es gab einen Fehler bei der Verarbeitung Ihrer Anfrage.".
Definition alreadyBooked : text :=
  js "✅ Der Termin wurde bereits vereinbart. Möchten Sie noch etwas besprechen?".
Definition summary : text := js "Beratungstermin zur Finanzierung".

Definition confirmation (date time email : option value) (meetLink : text) : text :=
  js "✅ Termin am " ++ display date ++ js " um " ++ display time ++
  js " wurde erfolgreich eingetragen." ++ nl ++
  js "📧 Einladung an " ++ display email ++ js "." ++ nl ++
  js "🔗 Google Meet Link: " ++ meetLink.

(** The stages that collect one field each (the [if ... else if] chain
    before the booking): the session after the branch and the reply it
    sets; no branch leaves the reply empty. *)
Definition collect (cleanedText textLower : text) (session : Session)
    : Session * text :=
  match stage session with
  | start | awaiting_date =>
      if includes (js "termin") textLower && bool_decide (stage session = start)
      then (setStage awaiting_date session, askDateFormat)
      else
        let dateMatch := matchOf dateRe cleanedText in
        let timeMatch := matchOf timeRe cleanedText in
        let session := storeMatch "date" dateMatch session in
        let session := storeMatch "time" timeMatch session in
        if truthy (data session !! "date") && truthy (data session !! "time")
        then (setStage awaiting_duration session, askDuration)
        else if negb (truthy (data session !! "date"))
        then (setStage awaiting_date session, askDate)
        else if negb (truthy (data session !! "time"))
        then (setStage awaiting_time session, askTime (data session !! "date"))
        else (session, [])
  | awaiting_time =>
      match matchOf timeRe cleanedText with
      | Some m => (setStage awaiting_duration (setData "time" (VStr m) session),
                   askDuration)
      | None => (session, askTimeAgain)
      end
  | awaiting_duration =>
      match matchOf durationRe cleanedText with
      | Some m => (setStage awaiting_email
                     (setData "duration" (VNum (parseInt m)) session),
                   askEmail)
      | None => (session, askDurationAgain)
      end
  | awaiting_email =>
      match matchOf emailRe cleanedText with
      | Some m => (setStage creating (setData "email" (VStr m) session), checking)
      | None => (session, askEmailAgain)
      end
  | creating | completed => (session, [])
  end.

(** [parseGermanDateTime(date, time)] splits both arguments, so it throws
    on anything but two strings; the arithmetic is the world's. *)
Definition startEnd (w : world) (date time duration : option value)
  : option (text * text) :=
  match date, time with
  | Some (VStr d), Some (VStr t) => isoInstants w d t duration
  | _, _ => None
  end.

(** The first falsy field, in the order of the nested conditional. *)
Definition firstMissing (date time duration : option value) : Stage :=
  if negb (truthy date) then awaiting_date
  else if negb (truthy time) then awaiting_time
  else if negb (truthy duration) then awaiting_duration
  else awaiting_email.

(** The body of [if (session.stage === "creating")]. *)
Definition book (w : world) (session : Session)   : Session * text :=
  let date := data session !! "date" in
  let time := data session !! "time" in
  let duration := data session !! "duration" in
  let email := data session !! "email" in
  if negb (truthy date) || negb (truthy time) || negb (truthy duration)
     || negb (truthy email)
  then (setStage (firstMissing date time duration) session, missingInfo)
  else
    let failed := (setStage awaiting_email session, genericError) in
    match startEnd w date time duration with
    | None => failed
    | Some (startIso, endIso) =>
        match isSlotFree w startIso endIso with
        | None => failed
        | Some false => (setStage awaiting_time session, slotTaken)
        | Some true =>
            match createEvent w summary startIso endIso email with
            | None => failed
            | Some ev =>
                let meetLink :=
                  orElse (hangoutLink ev)
                    (orElse (entryPointUri ev) (js "kein Link verfügbar")) in
                (setStage completed session,
                 confirmation date time email meetLink)
            end
        end
    end.

(** [(message || empty).replace(/\b(um|gegen|Uhr)\b/gi, empty).trim()] *)
Definition cleanedText (message : text) : text :=
  trim (removeFillers message).

(** One turn on the session object, once a token was loaded. *)
Definition advance (w : world) (session : Session) (message : text)
    : Session * text :=
  let textLower := toLowerCase (cleanedText message) in
  let '(session, reply) := collect (cleanedText message) textLower session in
  if bool_decide (stage session = creating) then book w session
  else if bool_decide (stage session = completed) then (session, alreadyBooked)
  else (session, reply).

(** [handleUserMessage(userId, message)]: the sessions after the call and
    the reply returned. *)
Definition handleUserMessage (w : world) (sessions : store)
    (userId : text) (message : text) : store * text :=
  if negb (tokens w) then (sessions, notConnected)
  else
    let session := sessionOf sessions userId in
    let '(session, reply) := advance w session message in
    (<[userId := session]> sessions, reply).

End ServerV3.

(* ===================================================================== *)
(** ** src/unnamed/part_001: the [/twilio/incoming-sms] route of the SMS
    server, which runs the stages inside the request handler *)
(* ===================================================================== *)

Module SmsWebhook.

Definition askDate : text :=
  js "Klar! FÃ¼r wann mÃ¶chten Sie den Termin vereinbaren? (z. B. 08.11.2025)".
Definition defaultAnswer : text :=
  js "Danke fÃ¼r Ihre Nachricht! Wie kann ich helfen?".
Definition askTime (date : text) : text :=
  js "Super! Zu welcher Uhrzeit am " ++ date ++
  js " wÃ¼rde es Ihnen passen? (z. B. 10:00)".
Definition askDateAgain : text :=
  js "Bitte geben Sie ein Datum im Format TT.MM.JJJJ an, z. B. 08.11.2025.".
Definition askDuration : text :=
  js "Perfekt. Wie lange soll das Meeting dauern? (z. B. 30 oder 60 Minuten)".
Definition askTimeAgain : text :=
  js "Bitte geben Sie eine Uhrzeit an, z. B. 10 oder 10:00.".
Definition askEmail : text :=
  js "Alles klar. Bitte geben Sie Ihre E-Mail-Adresse an, damit ich die Einladung senden kann.".
Definition booking : text :=
  js "Alles klar â€” ich trage den Termin ein, einen Moment bitte â€¦".
Definition askDurationAgain : text :=
  js "Bitte geben Sie die Dauer in Minuten an, z. B. 30 oder 60.".
Definition checking : text :=
  js "Danke â€” ich Ã¼berprÃ¼fe jetzt den Terminkalender ...".
Definition askEmailAgain : text :=
  js "Bitte senden Sie eine gÃ¼ltige E-Mail-Adresse.".
Definition notConnected : text :=
  js "Kalender nicht verbunden. Bitte kontaktieren Sie uns.".
Definition slotTaken : text :=
  js "âš ï¸ Dieser Zeitraum ist leider schon belegt. Bitte schlagen Sie eine andere Zeit vor.".
Definition summary : text := js "Beratungstermin".
Definition noLink : text := js "kein Link verfÃ¼gbar".
Definition createFailed : text :=
  js "Es gab einen Fehler beim Erstellen des Termins. Bitte versuchen Sie es erneut oder kontaktieren Sie uns.".

Definition confirmation (date time email : option value) (meetLink : text) : text :=
  js "âœ… Ihr Termin am " ++ display date ++ js " um " ++ display time ++
  js " wurde eingetragen. Einladung an " ++ display email ++
  js " gesendet. Link: " ++ meetLink.

Definition prompt (w : world) (body : text) : text :=
  js "Nutzer: " ++ quote ++ body ++ quote ++ nl ++
  js "Rolle: " ++ BOT_NAME w ++ js ", Berater fÃ¼r Immobilien & Finanzierung." ++ nl ++
  js "Antworte freundlich, professionell und kurz.".

(** What the handler did: the SMS it sent, if any, and the HTTP status. *)
Record outcome : Type := Outcome {
  sent : option text;
  status : nat
}.

(** The [if ... else if] chain over the stages; [None] when the completion
    call throws, which ends the request in the outer [catch]. *)
Definition collect (w : world) (body text_ : text) (session : Session)
    : option (Session * text) :=
  match stage session with
  | start =>
      if includes (js "termin") text_
      then Some (setStage awaiting_date session, askDate)
      else
        match completion w (prompt w body) with
        | None => None
        | Some content =>
            Some (session, orElse (trim <$> content) defaultAnswer)
        end
  | awaiting_date =>
      match matchOf dateRe text_ with
      | Some m => Some (setStage awaiting_time (setData "date" (VStr m) session),
                        askTime m)
      | None => Some (session, askDateAgain)
      end
  | awaiting_time =>
      match matchOf timeRe text_ with
      | Some m => Some (setStage awaiting_duration
                          (setData "time" (VStr m) session), askDuration)
      | None => Some (session, askTimeAgain)
      end
  | awaiting_duration =>
      match matchOf durationRe text_ with
      | Some m =>
          let session := setData "duration" (VNum (parseInt m)) session in
          if negb (truthy (data session !! "email"))
          then Some (setStage awaiting_email session, askEmail)
          else Some (setStage creating session, booking)
      | None => Some (session, askDurationAgain)
      end
  | awaiting_email =>
      match matchOf emailRe text_ with
      | Some m => Some (setStage creating (setData "email" (VStr m) session),
                        checking)
      | None => Some (session, askEmailAgain)
      end
  | creating | completed => Some (session, [])
  end.

(** [parseGermanDateTime(date, time)] of this file splits the date and
    matches [(timeStr || empty)], then the end instant is taken
    [(duration || 30)] minutes later. *)
Definition startEnd (w : world) (date time duration : option value)
    : option (text * text) :=
  match date with
  | Some (VStr d) =>
      let minutes := if truthy duration then duration else Some (VNum 30) in
      match time with
      | Some (VStr t) => isoInstants w d t minutes
      | Some (VNum n) =>
          if truthy time then None else isoInstants w d [] minutes
      | None => isoInstants w d [] minutes
      end
  | _ => None
  end.

(** The body of [if (session.stage === "creating")]; [reply] is what the
    chain has set. *)
Definition book (w : world) (session : Session) : Session * text :=
  if negb (tokens w) then (session, notConnected)
  else
    let date := data session !! "date" in
    let time := data session !! "time" in
    let duration := data session !! "duration" in
    let email := data session !! "email" in
    match startEnd w date time duration with
    | None => (session, createFailed)
    | Some (startIso, endIso) =>
        match isSlotFree w startIso endIso with
        | None => (session, createFailed)
        | Some false => (setStage awaiting_time session, slotTaken)
        | Some true =>
            match createEvent w summary startIso endIso email with
            | None => (session, createFailed)
            | Some ev =>
                let meetLink :=
                  orElse (hangoutLink ev) (orElse (entryPointUri ev) noLink) in
                (setStage completed session,
                 confirmation date time email meetLink)
            end
        end
    end.

(** One turn on the session object; [None] when the request fails before
    the session is saved. *)
Definition advance (w : world) (session : Session) (body : text)
    : option (Session * text) :=
  let text_ := toLowerCase body in
  match collect w body text_ session with
  | None => None
  | Some (session, reply) =>
      if bool_decide (stage session = creating) then Some (book w session)
      else Some (session, reply)
  end.

(** The handler of [POST /twilio/incoming-sms] on the fields [From] and
    [Body] of the request. *)
Definition incomingSms (w : world) (sessions : store) (from Body : text)
    : store * outcome :=
  let body := trim Body in
  match from with
  | [] => (sessions, Outcome None 400)
  | _ :: _ =>
      let phone := normalizePhone (DEFAULT_COUNTRY w) from in
      let session := sessionOf sessions phone in
      match advance w session body with
      | None => (sessions, Outcome None 500)
      | Some (session, reply) =>
          let sessions := <[phone := session]> sessions in
          if sendSms w phone reply
          then (sessions, Outcome (Some reply) 200)
          else (sessions, Outcome None 500)
      end
  end.

End SmsWebhook.

(* ===================================================================== *)
(** ** src/unnamed/part_002: [handleUserMessage] keyed by phone number, the
    token checked before the session is read

    The file uses [BOT_NAME] without declaring it; the constant is taken
    from the world, as in the files that declare it. *)
(* ===================================================================== *)

Module SmsV2.

Definition notConnected : text :=
  js "❌ Bot ist nicht verbunden. Bitte Google Setup durchführen.".
Definition askDate : text :=
  js "Klar! Für wann möchten Sie den Termin vereinbaren?".
Definition askTime (date : text) : text :=
  js "Super! Zu welcher Uhrzeit am " ++ date ++ js " möchten Sie den Termin?".
Definition askDateAgain : text :=
  js "Bitte geben Sie ein Datum an, z. B. 08.11.2025.".
Definition askDuration : text :=
  js "Perfekt. Wie lange soll das Meeting dauern? (z. B. 30 oder 60 Minuten)".
Definition askTimeAgain : text :=
  js "Bitte geben Sie eine Uhrzeit an, z. B. 10:00 Uhr.".
Definition askEmail : text :=
  js "Alles klar. Bitte geben Sie Ihre E-Mail-Adresse an, damit ich den Termin eintragen kann.".
Definition askDurationAgain : text :=
  js "Wie lange soll der Termin dauern (in Minuten)?".
Definition checking : text :=
  js "Einen Moment, ich prüfe, ob der Termin verfügbar ist …".
Definition askEmailAgain : text :=
  js "Bitte geben Sie eine gültige E-Mail-Adresse an.".
Definition missingInfo : text :=
  js "❌ Es fehlen noch Informationen. Bitte Datum, Uhrzeit, Dauer und E-Mail angeben.".
Definition slotTaken : text :=
  js "⚠️ Dieser Zeitraum ist leider schon belegt. Bitte schlagen Sie eine andere Zeit vor.".
Definition genericError : text :=
  js "❌ Es gab einen Fehler bei der Verarbeitung Ihrer Anfrage.".
Definition alreadyBooked : text :=
  js "✅ Der Termin wurde bereits vereinbart. Möchten Sie noch etwas besprechen?".
Definition summary : text := js "Beratungstermin zur Finanzierung".
Definition noLink : text := js "kein Link verfügbar".

Definition confirmation (date time email : option value) (meetLink : text) : text :=
  js "✅ Termin am " ++ display date ++ js " um " ++ display time ++
  js " wurde erfolgreich eingetragen." ++ nl ++
  js "📧 Einladung an " ++ display email ++ js " gesendet." ++ nl ++
  js "🔗 Google Meet Link: " ++ meetLink.

(** The default of the parameter [userLang], which no caller passes. *)
Definition userLang : text := js "de".

Definition prompt (w : world) (message : text) : text :=
  nl ++ js "        Du bist " ++ BOT_NAME w ++
  js ", Mortgage Broker. Lead hat Interesse an einer Hypothek." ++ nl ++
  js "        Antworte freundlich, stelle qualifizierte Fragen, leite ggf. zur Terminbuchung über." ++ nl ++
  js "        Nutzer: " ++ quote ++ message ++ quote ++ js " (" ++ userLang ++ js ")" ++ nl ++
  js "        ".

(** [`${timeMatch[1]}:${timeMatch[2] || "00"}`] *)
Definition normalTime (m : text) : text :=
  hourGroup m ++ js ":" ++ orElse (minuteGroup m) (js "00").

(** The [if ... else if] chain over the stages; [None] when the completion
    call throws or its answer has no content to trim. *)
Definition collect (w : world) (message text_ : text) (session : Session)
    : option (Session * text) :=
  match stage session with
  | start =>
      if includes (js "termin") text_
      then Some (setStage awaiting_date session, askDate)
      else
        match completion w (prompt w message) with
        | Some (Some content) => Some (session, trim content)
        | _ => None
        end
  | awaiting_date =>
      match matchOf dateRe text_ with
      | Some m => Some (setStage awaiting_time (setData "date" (VStr m) session),
                        askTime m)
      | None => Some (session, askDateAgain)
      end
  | awaiting_time =>
      match matchOf timeRe text_ with
      | Some m => Some (setStage awaiting_duration
                          (setData "time" (VStr (normalTime m)) session),
                        askDuration)
      | None => Some (session, askTimeAgain)
      end
  | awaiting_duration =>
      match matchOf durationRe text_ with
      | Some m => Some (setStage awaiting_email
                          (setData "duration" (VNum (parseInt m)) session),
                        askEmail)
      | None => Some (session, askDurationAgain)
      end
  | awaiting_email =>
      match matchOf emailRe text_ with
      | Some m => Some (setStage creating (setData "email" (VStr m) session),
                        checking)
      | None => Some (session, askEmailAgain)
      end
  | creating | completed => Some (session, [])
  end.

(** The body of [if (session.stage === "creating")], the one of
    src/backend/serverv3.js with the replies of this file. *)
Definition book (w : world) (session : Session) : Session * text :=
  let date := data session !! "date" in
  let time := data session !! "time" in
  let duration := data session !! "duration" in
  let email := data session !! "email" in
  if negb (truthy date) || negb (truthy time) || negb (truthy duration)
     || negb (truthy email)
  then (setStage (ServerV3.firstMissing date time duration) session, missingInfo)
  else
    let failed := (setStage awaiting_email session, genericError) in
    match ServerV3.startEnd w date time duration with
    | None => failed
    | Some (startIso, endIso) =>
        match isSlotFree w startIso endIso with
        | None => failed
        | Some false => (setStage awaiting_time session, slotTaken)
        | Some true =>
            match createEvent w summary startIso endIso email with
            | None => failed
            | Some ev =>
                let meetLink :=
                  orElse (hangoutLink ev) (orElse (entryPointUri ev) noLink) in
                (setStage completed session,
                 confirmation date time email meetLink)
            end
        end
    end.

(** One turn on the session object once a token was loaded; an exception
    in the chain leaves the session as it is and answers with the generic
    error of the outer [catch]. *)
Definition advance (w : world) (session : Session) (message : text)
    : Session * text :=
  let text_ := toLowerCase message in
  match collect w message text_ session with
  | None => (session, genericError)
  | Some (session, reply) =>
      if bool_decide (stage session = creating) then book w session
      else if bool_decide (stage session = completed)
      then (session, alreadyBooked)
      else (session, reply)
  end.

Definition handleUserMessage (w : world) (sessions : store)
    (userPhone : text) (message : text) : store * text :=
  if negb (tokens w) then (sessions, notConnected)
  else
    let session := sessionOf sessions userPhone in
    let '(session, reply) := advance w session message in
    (<[userPhone := session]> sessions, reply).

End SmsV2.

(* ===================================================================== *)
(** ** src/unnamed/part_003, second server: [handleUserMessage] that loads
    the token only in the stage [creating] *)
(* ===================================================================== *)

Module SmsLazy.

Definition askDate : text :=
  js "Klar! Für wann möchten Sie den Termin vereinbaren?".
Definition defaultAnswer : text :=
  js "Danke für Ihre Nachricht! Wie kann ich helfen?".
Definition aiDown : text :=
  js "❌ AI momentan nicht verfügbar. Bitte später erneut versuchen.".
Definition askTime (date : text) : text :=
  js "Super! Zu welcher Uhrzeit am " ++ date ++ js " möchten Sie den Termin?".
Definition askDateAgain : text :=
  js "Bitte geben Sie ein Datum an, z. B. 08.11.2025.".
Definition askDuration : text :=
  js "Perfekt. Wie lange soll das Meeting dauern? (z. B. 30 oder 60 Minuten)".
Definition askTimeAgain : text :=
  js "Bitte geben Sie eine Uhrzeit an, z. B. 10:00 Uhr.".
Definition askEmail : text :=
  js "Alles klar. Bitte geben Sie Ihre E-Mail-Adresse an, damit ich den Termin eintragen kann.".
Definition askDurationAgain : text :=
  js "Wie lange soll der Termin dauern (in Minuten)?".
Definition checking : text :=
  js "Einen Moment, ich prüfe, ob der Termin verfügbar ist …".
Definition askEmailAgain : text :=
  js "Bitte geben Sie eine gültige E-Mail-Adresse an.".
Definition notConnected : text :=
  js "❌ Bot ist nicht verbunden. Bitte Google Setup durchführen.".
Definition slotTaken : text :=
  js "⚠️ Dieser Zeitraum ist leider schon belegt. Bitte schlagen Sie eine andere Zeit vor.".
Definition genericError : text :=
  js "❌ Es gab einen Fehler bei der Verarbeitung Ihrer Anfrage.".
Definition alreadyBooked : text :=
  js "✅ Der Termin wurde bereits vereinbart. Möchten Sie noch etwas besprechen?".
Definition summary : text := js "Beratungstermin".
Definition noLink : text := js "kein Link verfügbar".

Definition confirmation (date time email : option value) (meetLink : text) : text :=
  js "✅ Termin am " ++ display date ++ js " um " ++ display time ++
  js " wurde erfolgreich eingetragen." ++ nl ++ js "📧 Einladung an " ++ display email ++
  js " gesendet." ++ nl ++ js "🔗 Google Meet Link: " ++ meetLink.

Definition prompt (w : world) (message : text) : text :=
  js "Du bist " ++ BOT_NAME w ++ js ", Mortgage Broker. Lead hat Interesse an einer Hypothek. Antworte freundlich. Nutzer: " ++
  quote ++ message ++ quote.

(** [parseGermanDateTime(date, time)] of this file splits the date and
    matches [(timeStr || empty)]; the duration goes into the arithmetic as
    it is stored. *)
Definition startEnd (w : world) (date time duration : option value)
    : option (text * text) :=
  match date with
  | Some (VStr d) =>
      match time with
      | Some (VStr t) => isoInstants w d t duration
      | Some (VNum n) =>
          if truthy time then None else isoInstants w d [] duration
      | None => isoInstants w d [] duration
      end
  | _ => None
  end.

(** The branch [else if (session.stage === "creating")] behind the token
    check; [None] when a call throws, which the outer [catch] answers. *)
Definition book (w : world) (session : Session) : option (Session * text) :=
  let date := data session !! "date" in
  let time := data session !! "time" in
  let duration := data session !! "duration" in
  let email := data session !! "email" in
  match startEnd w date time duration with
  | None => None
  | Some (startIso, endIso) =>
      match isSlotFree w startIso endIso with
      | None => None
      | Some false => Some (setStage awaiting_time session, slotTaken)
      | Some true =>
          match createEvent w summary startIso endIso email with
          | None => None
          | Some ev =>
              let meetLink :=
                orElse (hangoutLink ev) (orElse (entryPointUri ev) noLink) in
              Some (setStage completed session,
                    confirmation date time email meetLink)
          end
      end
  end.

(** One turn on the session object: the whole [if ... else if] chain, of
    which [creating] and [completed] are branches here. *)
Definition advance (w : world) (session : Session) (message : text)
    : Session * text :=
  let text_ := toLowerCase message in
  match stage session with
  | start =>
      if includes (js "termin") text_
      then (setStage awaiting_date session, askDate)
      else
        match completion w (prompt w message) with
        | None => (session, aiDown)
        | Some content => (session, orElse (trim <$> content) defaultAnswer)
        end
  | awaiting_date =>
      match matchOf dateRe text_ with
      | Some m => (setStage awaiting_time (setData "date" (VStr m) session),
                   askTime m)
      | None => (session, askDateAgain)
      end
  | awaiting_time =>
      match matchOf timeRe text_ with
      | Some m => (setStage awaiting_duration
                     (setData "time" (VStr (SmsV2.normalTime m)) session),
                   askDuration)
      | None => (session, askTimeAgain)
      end
  | awaiting_duration =>
      match matchOf durationRe text_ with
      | Some m => (setStage awaiting_email
                     (setData "duration" (VNum (parseInt m)) session),
                   askEmail)
      | None => (session, askDurationAgain)
      end
  | awaiting_email =>
      match matchOf emailRe text_ with
      | Some m => (setStage creating (setData "email" (VStr m) session), checking)
      | None => (session, askEmailAgain)
      end
  | creating =>
      if negb (tokens w) then (session, notConnected)
      else
        match book w session with
        | Some r => r
        | None => (session, genericError)
        end
  | completed => (session, alreadyBooked)
  end.

(** [handleUserMessage(userPhone, message)]: the session object is put in
    the map before the stages run and changed in place. *)
Definition handleUserMessage (w : world) (sessions : store)
    (userPhone : text) (message : text) : store * text :=
  let session := sessionOf sessions userPhone in
  let '(session, reply) := advance w session message in
  (<[userPhone := session]> sessions, reply).

End SmsLazy.

(* ===================================================================== *)
(** ** Notions the properties are stated with *)
(* ===================================================================== *)

(** *** Texts and patterns *)

(** [sub] is a substring of [s]. *)
Definition Within (sub s : text) : Prop :=
  exists pre post, s = pre ++ sub ++ post.

(** [m] is in the language of [r] and a substring of [s]. *)
Definition Occurs (r : regex) (m s : text) : Prop :=
  Matches r m /\ exists pre post, s = pre ++ m ++ post.

(** The characters a match of [r] can contain, and the least length of
    one. *)
Fixpoint alphabet (r : regex) (c : ascii) : bool :=
  match r with
  | Cls p => p c
  | Seq r1 r2 => alphabet r1 c || alphabet r2 c
  | Opt r1 => alphabet r1 c
  | Rep p _ _ => p c
  end.

Fixpoint minLength (r : regex) : nat :=
  match r with
  | Cls _ => 1
  | Seq r1 r2 => minLength r1 + minLength r2
  | Opt _ => 0
  | Rep _ lo _ => lo
  end.


Definition isLetter (c : ascii) : bool := isUpper c || isLower c.

(** No two neighbours in [m] are both outside the word characters, so no
    filler word can have stood between them. *)
Fixpoint tight (m : text) : bool :=
  match m with
  | x :: rest =>
      match rest with
      | y :: _ => (isWordChar x || isWordChar y) && tight rest
      | [] => true
      end
  | [] => true
  end.

(** The character before the position behind [f], when [prev] stood
    before [f]. *)
Definition lastOr (prev : option ascii) (f : text) : option ascii :=
  match last f with
  | Some c => Some c
  | None => prev
  end.

(** *** Sessions *)

(** [s'] has every field of [s]. *)
Abbreviation keeps s s' := (dom (data s) ⊆ dom (data s')).

(** The wording of the specification for the re-entry after a missing
    field, to compare the nested conditional of the handlers with: the
    four fields of a booking in the order date, time, duration, email,
    each with the stage that asks for it, and the stage of the first one
    that is missing. *)
Definition bookingFields : list (string * Stage) :=
  [("date", awaiting_date); ("time", awaiting_time);
   ("duration", awaiting_duration); ("email", awaiting_email)].

Definition missing (s : Session) (k : string) : bool :=
  negb (truthy (data s !! k)).

Definition firstMissingStage (s : Session) : option Stage :=
  snd <$> List.find (fun f => missing s f.1) bookingFields.

Definition allPresent (s : Session) : Prop :=
  firstMissingStage s = None.

(** What the stage of a session of src/backend/serverv3.js says about the
    fields it holds. *)
Definition V3_consistent (s : Session) : Prop :=
  match stage s with
  | start | awaiting_date => truthy (data s !! "date") = false
  | awaiting_time => truthy (data s !! "date") = true
  | awaiting_duration | awaiting_email | creating =>
      truthy (data s !! "date") = true /\ truthy (data s !! "time") = true
  | completed => True
  end.

Definition V3_wellformed (sessions : store) : Prop :=
  forall user s, sessions !! user = Some s -> V3_consistent s.

(** *** The calendar during a booking

    [instants] is what the handler's [startEnd] gave. *)

(** Computing the instants or one of the two calendar calls throws. *)
Definition bookingThrows (w : world) (summary : text)
    (instants : option (text * text)) (email : option value) : Prop :=
  match instants with
  | None => True
  | Some (startIso, endIso) =>
      match isSlotFree w startIso endIso with
      | None => True
      | Some false => False
      | Some true => createEvent w summary startIso endIso email = None
      end
  end.

(** The calendar answers that the slot is taken. *)
Definition slotBusy (w : world) (instants : option (text * text)) : Prop :=
  exists startIso endIso,
    instants = Some (startIso, endIso) /\
    isSlotFree w startIso endIso = Some false.

(** The slot is free and the event is created. *)
Definition booked (w : world) (summary : text)
    (instants : option (text * text)) (email : option value) (ev : event) : Prop :=
  exists startIso endIso,
    instants = Some (startIso, endIso) /\
    isSlotFree w startIso endIso = Some true /\
    createEvent w summary startIso endIso email = Some ev.

(** *** Turns *)

(** A conversation: the messages of one user, each handled in the world of
    its time. *)
Fixpoint turns (handle : world -> store -> text -> text -> store * text)
    (sessions : store) (user : text) (inputs : list (world * text)) : store :=
  match inputs with
  | [] => sessions
  | (w, message) :: rest =>
      turns handle (handle w sessions user message).1 user rest
  end.


(** *** Examples *)

(** A world with a calendar that answers [free] to every question, a link
    for every event, and instants that join date and time. *)
Definition exampleWorld (token : bool) (free : option bool) : world :=
  {| tokens := token;
     DEFAULT_COUNTRY := js "+49";
     BOT_NAME := js "Jean-Mikael Lavoie";
     isoInstants := fun d t _ => Some (d ++ js "T" ++ t, d ++ js "T" ++ t ++ js "+");
     isSlotFree := fun _ _ => free;
     createEvent := fun _ _ _ _ =>
       Some (Event (Some (js "https://meet.google.com/abc-defg-hij")) None);
     completion := fun _ => Some (Some (js "Gern."));
     sendSms := fun _ _ => true |}.

(** The four fields of the scenario of the specification. *)
Definition exampleData : gmap string value :=
  <["email" := VStr (js "a@b.com")]>
    (<["duration" := VNum 30]>
       (<["time" := VStr (js "10:00")]>
          (<["date" := VStr (js "08.11.2025")]> ∅))).

Definition user1 : text := js "+491701234567".

(* ===================================================================== *)
(** ** The helpers of the SMS servers (src/unnamed/part_001 and part_003)

    [pad], [toLocalISOStringWithOffset] and [parseGermanDateTime], which
    the handlers above reach through the [isoInstants] of the world. *)
(* ===================================================================== *)

(** [n.toString()] of an integer. *)
Definition integerToText (n : Z) : text :=
  if (n <? 0)%Z then js "-" ++ numberToText (Z.to_N (- n))
  else numberToText (Z.to_N n).

(** [s.padStart(2, '0')] *)
Definition padStart2 (s : text) : text :=
  repeat "0"%char (2 - length s) ++ s.

(** [pad(n)] *)
Definition pad (n : Z) : text := padStart2 (integerToText n).

(** What [toLocalISOStringWithOffset] reads of a [Date]: the getters, which
    return integers for every valid date. *)
Record date : Type := Date {
  getFullYear : Z;
  getMonth : Z;
  getDate : Z;
  getHours : Z;
  getMinutes : Z;
  getSeconds : Z;
  getTimezoneOffset : Z
}.

Definition toLocalISOStringWithOffset (d : date) : text :=
  let year := getFullYear d in
  let month := pad (getMonth d + 1) in
  let day := pad (getDate d) in
  let hours := pad (getHours d) in
  let minutes := pad (getMinutes d) in
  let seconds := pad (getSeconds d) in
  let tzOffset := (- getTimezoneOffset d)%Z in
  let sign := if (0 <=? tzOffset)%Z then js "+" else js "-" in
  let tzHour := pad (Z.abs tzOffset / 60) in
  let tzMin := pad (Z.abs tzOffset mod 60) in
  integerToText year ++ js "-" ++ month ++ js "-" ++ day ++ js "T" ++
  hours ++ js ":" ++ minutes ++ js ":" ++ seconds ++
  sign ++ tzHour ++ js ":" ++ tzMin.

(** [s.split(sep)] on a separator of one character. *)
Fixpoint split (sep : ascii) (s : text) : list text :=
  match s with
  | [] => [[]]
  | c :: s' =>
      if isChar sep c then [] :: split sep s'
      else
        match split sep s' with
        | piece :: rest => (c :: piece) :: rest
        | [] => [[c]]
        end
  end.

(** [parseInt(s, 10)]: white space, a sign, then the longest run of
    digits; [None] is [NaN]. *)
Definition parseInt10 (s : text) : option Z :=
  let s := dropWhile isSpace s in
  let '(negative, s) :=
    match s with
    | c :: s' =>
        if isChar "-" c then (true, s')
        else if isChar "+" c then (false, s')
        else (false, s)
    | [] => (false, s)
    end in
  match takeWhile isDigit s with
  | [] => None
  | ds => Some (if negative then - Z.of_N (parseInt ds)
                else Z.of_N (parseInt ds))%Z
  end.

(** The arguments [parseGermanDateTime] hands to
    [new Date(y, m - 1, d, hh, mm, 0, 0)]; [None] is [NaN], which an
    [undefined] element of the destructured array becomes as well. *)
Record dateArgs : Type := DateArgs {
  year : option Z;
  monthIndex : option Z;
  day : option Z;
  hours : option Z;
  minutes : option Z
}.

(** [parseGermanDateTime(dateDDMMYYYY, timeStr)] of the SMS servers, on a
    date string and on [(timeStr || empty)]. *)
Definition parseGermanDateTime (dateDDMMYYYY timeStr : text) : dateArgs :=
  let parts := parseInt10 <$> split "." dateDDMMYYYY in
  let d := mjoin (parts !! 0) in
  let m := mjoin (parts !! 1) in
  let y := mjoin (parts !! 2) in
  let '(hh, mm) :=
    match search timeRe timeStr with
    | Some tMatch =>
        (parseInt10 (hourGroup (matched tMatch)),
         match minuteGroup (matched tMatch) with
         | Some (c :: g) => parseInt10 (c :: g)
         | _ => Some 0%Z
         end)
    | None => (Some 0%Z, Some 0%Z)
    end in
  DateArgs y ((fun m => m - 1)%Z <$> m) d hh mm.

(* ===================================================================== *)
(** ** src/unnamed/part_001: the [/lead-webhook] route *)
(* ===================================================================== *)

Module LeadWebhook.

(** [a || b] on a field of the request body. *)
Definition orValue (a : option value) (b : value) : value :=
  match a with
  | Some v => if truthy a then v else b
  | None => b
  end.

Definition greeting (w : world) (firstName lastName : value) : text :=
  js "Hallo " ++ display (Some firstName) ++ js " " ++
  display (Some lastName) ++ js ", hier ist " ++ BOT_NAME w ++
  js " â€“ danke fÃ¼r Ihre Anfrage! Wie kann ich Ihnen am besten helfen?".

(** [{ firstName, lastName, email, company }] *)
Definition leadData (firstName lastName email company : value)
    : gmap string value :=
  <["company" := company]>
    (<["email" := email]>
       (<["lastName" := lastName]> (<["firstName" := firstName]> ∅))).

(** The handler of [POST /lead-webhook] on the parsed body.  A phone
    field that holds a number has no [trim], which ends the request in
    the [catch]. *)
Definition leadWebhook (w : world) (sessions : store)
    (body : gmap string value) : store * SmsWebhook.outcome :=
  let firstName :=
    orValue (body !! "firstName")
      (orValue (body !! "first_name")
         (orValue (body !! "firstname") (VStr []))) in
  let lastName :=
    orValue (body !! "lastName")
      (orValue (body !! "last_name")
         (orValue (body !! "lastname") (VStr []))) in
  let phoneRaw :=
    orValue (body !! "phone")
      (orValue (body !! "phone_number")
         (orValue (body !! "mobile") (VStr []))) in
  let email := orValue (body !! "email") (VStr []) in
  if negb (truthy (Some phoneRaw))
  then (sessions, SmsWebhook.Outcome None 400)
  else
    match phoneRaw with
    | VNum _ => (sessions, SmsWebhook.Outcome None 500)
    | VStr raw =>
        let phone := normalizePhone (DEFAULT_COUNTRY w) raw in
        let greeting := greeting w firstName lastName in
        let company := orValue (body !! "company") (VStr []) in
        let sessions :=
          <[phone := mkSession start (leadData firstName lastName email company)]>
            sessions in
        if sendSms w phone greeting
        then (sessions, SmsWebhook.Outcome (Some greeting) 200)
        else (sessions, SmsWebhook.Outcome None 500)
    end.

End LeadWebhook.

(* ===================================================================== *)
(** ** src/unnamed/part_003, first server: the [/twilio/incoming-sms]
    route that qualifies the lead first and mails the confirmation

    [sendEmail(to, subject, text)] is one more call to the outside; its
    answer is a parameter of the route, [false] for a call that throws. *)
(* ===================================================================== *)

Module SmsMail.

Definition defaultAnswer : text :=
  js "Danke für Ihre Nachricht! Wie kann ich helfen?".
Definition askTime (date : text) : text :=
  js "Super! Zu welcher Uhrzeit am " ++ date ++ js " würde es Ihnen passen?".
Definition askDateAgain : text :=
  js "Bitte Datum im Format TT.MM.JJJJ angeben, z.B. 08.11.2025.".
Definition askDuration : text :=
  js "Wie lange soll das Gespräch dauern (Minuten)?".
Definition askTimeAgain : text :=
  js "Bitte Uhrzeit angeben, z.B. 10:00.".
Definition askEmail : text :=
  js "Bitte Ihre E-Mail-Adresse für die Einladung angeben".
Definition askDurationAgain : text :=
  js "Dauer in Minuten angeben, z.B. 30 oder 60.".
Definition checking : text :=
  js "Danke, ich trage den Termin ein…".
Definition askEmailAgain : text :=
  js "Bitte gültige E-Mail-Adresse senden.".
Definition notConnected : text :=
  js "Kalender nicht verbunden.".
Definition slotTaken : text :=
  js "⚠️ Zeitraum belegt. Andere Zeit vorschlagen.".
Definition summary : text := js "Beratungsgespräch Mortgage Broker".
Definition noLink : text := js "kein Link".
Definition createFailed : text :=
  js "Fehler beim Erstellen des Termins.".
Definition mailSubject : text := js "Ihr Termin Mortgage Broker".

Definition confirmation (date time email : option value) (meetLink : text) : text :=
  js "✅ Termin am " ++ display date ++ js " um " ++ display time ++
  js " eingetragen. Einladung an " ++ display email ++
  js " gesendet. Link: " ++ meetLink.

Definition mailText (date time : option value) (meetLink : text) : text :=
  js "Ihr Termin wurde gebucht: " ++ display date ++ js " " ++ display time ++
  js ". Link: " ++ meetLink.

Definition prompt (w : world) (body : text) : text :=
  nl ++ js "Du bist " ++ BOT_NAME w ++
  js ", ein Mortgage Broker. Der Lead hat bereits Interesse gezeigt." ++ nl ++
  js "Stelle gezielt qualifizierende Fragen:" ++ nl ++
  js "- Budget" ++ nl ++
  js "- gewünschte Laufzeit" ++ nl ++
  js "- Art der Finanzierung" ++ nl ++
  js "- Zeitpunkt der Entscheidung" ++ nl ++
  js "Antworte freundlich und kurz. " ++ nl ++
  js "Nutzer: " ++ quote ++ body ++ quote.

(** The [if ... else if] chain over the stages; [None] when the completion
    call throws, which ends the request in the outer [catch]. *)
Definition collect (w : world) (body text_ : text) (session : Session)
    : option (Session * text) :=
  match stage session with
  | start =>
      match completion w (prompt w body) with
      | None => None
      | Some content =>
          Some (setStage awaiting_date session,
                orElse (trim <$> content) defaultAnswer)
      end
  | awaiting_date =>
      match matchOf dateRe text_ with
      | Some m => Some (setStage awaiting_time (setData "date" (VStr m) session),
                        askTime m)
      | None => Some (session, askDateAgain)
      end
  | awaiting_time =>
      match matchOf timeRe text_ with
      | Some m => Some (setStage awaiting_duration
                          (setData "time" (VStr m) session), askDuration)
      | None => Some (session, askTimeAgain)
      end
  | awaiting_duration =>
      match matchOf durationRe text_ with
      | Some m => Some (setStage awaiting_email
                          (setData "duration" (VNum (parseInt m)) session),
                        askEmail)
      | None => Some (session, askDurationAgain)
      end
  | awaiting_email =>
      match matchOf emailRe text_ with
      | Some m => Some (setStage creating (setData "email" (VStr m) session),
                        checking)
      | None => Some (session, askEmailAgain)
      end
  | creating | completed => Some (session, [])
  end.

(** What one request did besides answering: the event it had the calendar
    create, if any. *)
Record effect : Type := Effect {
  answer : SmsWebhook.outcome;
  created : option event
}.

Section Mail.

Variable sendEmail : option value -> text -> text -> bool.

(** The body of [if (session.stage === "creating")]: the session, the
    reply and the event created on the way. *)
Definition book (w : world) (session : Session)
    : Session * text * option event :=
  if negb (tokens w) then (session, notConnected, None)
  else
    let date := data session !! "date" in
    let time := data session !! "time" in
    let duration := data session !! "duration" in
    let email := data session !! "email" in
    match SmsWebhook.startEnd w date time duration with
    | None => (session, createFailed, None)
    | Some (startIso, endIso) =>
        match isSlotFree w startIso endIso with
        | None => (session, createFailed, None)
        | Some false => (setStage awaiting_time session, slotTaken, None)
        | Some true =>
            match createEvent w summary startIso endIso email with
            | None => (session, createFailed, None)
            | Some ev =>
                let meetLink :=
                  orElse (hangoutLink ev) (orElse (entryPointUri ev) noLink) in
                if sendEmail email mailSubject (mailText date time meetLink)
                then (setStage completed session,
                      confirmation date time email meetLink, Some ev)
                else (session, createFailed, Some ev)
            end
        end
    end.

(** One turn on the session object; [None] when the request fails before
    the session is saved. *)
Definition advance (w : world) (session : Session) (body : text)
    : option (Session * text * option event) :=
  let text_ := toLowerCase body in
  match collect w body text_ session with
  | None => None
  | Some (session, reply) =>
      if bool_decide (stage session = creating) then Some (book w session)
      else Some (session, reply, None)
  end.

(** The handler of [POST /twilio/incoming-sms] on the fields [From] and
    [Body] of the request. *)
Definition incomingSms (w : world) (sessions : store) (from Body : text)
    : store * effect :=
  let body := trim Body in
  match from with
  | [] => (sessions, Effect (SmsWebhook.Outcome None 400) None)
  | _ :: _ =>
      let phone := normalizePhone (DEFAULT_COUNTRY w) from in
      let session := sessionOf sessions phone in
      match advance w session body with
      | None => (sessions, Effect (SmsWebhook.Outcome None 500) None)
      | Some (session, reply, ev) =>
          let sessions := <[phone := session]> sessions in
          if sendSms w phone reply
          then (sessions, Effect (SmsWebhook.Outcome (Some reply) 200) ev)
          else (sessions, Effect (SmsWebhook.Outcome None 500) ev)
      end
  end.

End Mail.

End SmsMail.

(* ===================================================================== *)
(** ** Notions the further properties are stated with *)
(* ===================================================================== *)

(** The requests a server handles one after the other: each with the
    world of its time, the sender and the text. *)
Fixpoint serve {R} (handle : world -> store -> text -> text -> store * R)
    (sessions : store) (requests : list (world * text * text)) : store :=
  match requests with
  | [] => sessions
  | (w, sender, message) :: rest =>
      serve handle (handle w sessions sender message).1 rest
  end.


(** The form of an RFC 3339 date-time with a numeric offset,
    [/\d{4}-\d{2}-\d{2}T\d{2}:\d{2}:\d{2}[+-]\d{2}:\d{2}/]. *)
Definition isSign (c : ascii) : bool := isChar "+" c || isChar "-" c.

Definition rfc3339Re : regex :=
  (Rep isDigit 4 (Some 4) · Chr "-" · Rep isDigit 2 (Some 2) · Chr "-" ·
   Rep isDigit 2 (Some 2) · Chr "T" · Rep isDigit 2 (Some 2) · Chr ":" ·
   Rep isDigit 2 (Some 2) · Chr ":" · Rep isDigit 2 (Some 2) ·
   Cls isSign · Rep isDigit 2 (Some 2) · Chr ":" · Rep isDigit 2 (Some 2))%re.

(** The getters of a valid [Date] but the year, each in its range, the
    offset within a day. *)
Definition inRange (d : date) : Prop :=
  (0 <= getMonth d <= 11 /\
   1 <= getDate d <= 31 /\ 0 <= getHours d <= 23 /\
   0 <= getMinutes d <= 59 /\ 0 <= getSeconds d <= 59 /\
   -1440 < getTimezoneOffset d < 1440)%Z.

(** The minutes east of Greenwich that an offset [sign hh:mm] stands
    for. *)
Definition offsetMinutes (sign hh mm : text) : Z :=
  ((if bool_decide (sign = js "-") then -1 else 1) *
   (60 * Z.of_N (parseInt hh) + Z.of_N (parseInt mm)))%Z.

(** The session of a lead that left an e-mail address: the address is
    kept and the stage is never the one that asks for it. *)
Definition hasEmail (email : value) (s : Session) : Prop :=
  data s !! "email" = Some email /\ stage s <> awaiting_email.


(** The value of [a || b || ... || empty]: the first truthy candidate,
    the empty string when there is none. *)
Definition firstTruthy (candidates : list (option value)) : value :=
  match List.find truthy candidates with
  | Some (Some v) => v
  | _ => VStr []
  end.

(** The three fields of the body of a lead that may hold the number. *)
Definition phoneFields (body : gmap string value) : list (option value) :=
  [body !! "phone"; body !! "phone_number"; body !! "mobile"].



(* ===================================================================== *)
(** ** The matcher against the language of a pattern *)
(* ===================================================================== *)

Section Matcher.
Context {R : Type}.
Implicit Types (k : text -> option R) (s m rest : text).

Lemma rep_sound p s : forall lo hi k x,
  rep p lo hi s k = Some x ->
  exists m rest, s = m ++ rest /\ Matches (Rep p lo hi) m /\ k rest = Some x.
Proof.
  induction s as [|c s IH]; intros lo hi k x H; simpl in H.
  - destruct lo; [|discriminate].
    exists [], []. repeat split; [|done].
    constructor; [constructor|simpl; lia|simpl; intros; lia].
  - assert (Hstop : match lo with 0 => k (c :: s) | S _ => None end = Some x ->
      exists m rest, c :: s = m ++ rest /\ Matches (Rep p lo hi) m /\ k rest = Some x).
    { destruct lo; [|discriminate]. intros Hk.
      exists [], (c :: s). repeat split; [|done].
      constructor; [constructor|simpl; lia|simpl; intros; lia]. }
    destruct (p c && hiAllows hi) eqn:Hc; [|auto].
    apply andb_true_iff in Hc as [Hp Hhi].
    destruct (rep p (pred lo) (pred <$> hi) s k) as [y|] eqn:Hin; [|auto].
    injection H as ->.
    destruct (IH _ _ _ _ Hin) as (m & rest & -> & Hm & Hk).
    exists (c :: m), rest. repeat split; [|done].
    inversion Hm as [| | | |? ? ? ? Hall Hlo Hbound]; subst.
    constructor; [by constructor|simpl; lia|].
    intros h ->. simpl in *. destruct h; [discriminate|].
    specialize (Hbound h eq_refl). lia.
Qed.

Lemma rep_complete p m : forall lo hi rest k,
  Matches (Rep p lo hi) m -> is_Some (k rest) ->
  is_Some (rep p lo hi (m ++ rest) k).
Proof.
  induction m as [|c m IH]; intros lo hi rest k Hm Hk;
    inversion Hm as [| | | |? ? ? ? Hall Hlo Hbound]; subst; simpl in *.
  - assert (lo = 0) as -> by lia.
    destruct rest as [|c rest]; simpl; [done|].
    destruct (p c && hiAllows hi); [|done].
    by destruct (rep p 0 (pred <$> hi) rest k).
  - apply Forall_cons in Hall as [Hp Hall]. rewrite Hp. simpl.
    assert (hiAllows hi = true) as ->.
    { destruct hi as [[|h]|]; try done. specialize (Hbound 0 eq_refl). lia. }
    assert (is_Some (rep p (pred lo) (pred <$> hi) (m ++ rest) k)) as [y ->]; [|done].
    apply IH; [|done]. constructor; [done|lia|].
    intros h Hh. destruct hi as [h'|]; [|discriminate].
    injection Hh as <-. specialize (Hbound h' eq_refl). lia.
Qed.

Lemma run_sound r : forall s k x,
  run r s k = Some x ->
  exists m rest, s = m ++ rest /\ Matches r m /\ k rest = Some x.
Proof.
  induction r as [p|r1 IH1 r2 IH2|r IH|p lo hi]; intros s k x H; simpl in H.
  - destruct s as [|c s]; [discriminate|].
    destruct (p c) eqn:Hp; [|discriminate].
    exists [c], s. repeat split; [|done]. by constructor.
  - destruct (IH1 _ _ _ H) as (m1 & rest1 & -> & Hm1 & H2).
    destruct (IH2 _ _ _ H2) as (m2 & rest & -> & Hm2 & Hk).
    exists (m1 ++ m2), rest. rewrite <- app_assoc. repeat split; [|done].
    by constructor.
  - destruct (run r s k) as [y|] eqn:Hr.
    + injection H as ->.
      destruct (IH _ _ _ Hr) as (m & rest & -> & Hm & Hk).
      exists m, rest. repeat split; [|done]. by apply MOptTake.
    + exists [], s. repeat split; [|done]. apply MOptSkip.
  - by apply rep_sound.
Qed.

Lemma run_complete r m :
  Matches r m -> forall rest k, is_Some (k rest) -> is_Some (run r (m ++ rest) k).
Proof.
  induction 1 as [p c Hp|r1 r2 s1 s2 _ IH1 _ IH2|r|r s _ IH|p lo hi s Hall Hlo Hhi];
    intros rest k Hk; simpl.
  - by rewrite Hp.
  - rewrite <- app_assoc. apply IH1. by apply IH2.
  - by destruct (run r rest k).
  - by destruct (IH rest k Hk) as [y ->].
  - apply rep_complete; [by constructor|done].
Qed.

End Matcher.

Lemma exec_sound r s m rest :
  exec r s = Some (m, rest) -> s = m ++ rest /\ Matches r m.
Proof.
  unfold exec. destruct (run r s Some) as [rest'|] eqn:H; [|discriminate].
  intros [= <- <-].
  destruct (run_sound _ _ _ _ H) as (m & rest & -> & Hm & [= ->]).
  rewrite length_app, Nat.add_sub, take_app_length. done.
Qed.

Lemma exec_complete r m rest : Matches r m -> is_Some (exec r (m ++ rest)).
Proof.
  intros Hm. unfold exec.
  by destruct (run_complete r m Hm rest Some) as [y ->].
Qed.

Lemma search_sound r s : forall f,
  search r s = Some f ->
  s = before f ++ matched f ++ after f /\ Matches r (matched f).
Proof.
  induction s as [|c s IH]; intros f; simpl.
  - destruct (exec r []) as [[m rest]|] eqn:He; [|discriminate].
    intros [= <-]. simpl. by apply exec_sound.
  - destruct (exec r (c :: s)) as [[m rest]|] eqn:He.
    + intros [= <-]. simpl. by apply exec_sound.
    + destruct (search r s) as [g|]; [|discriminate].
      intros [= <-]. simpl. destruct (IH g eq_refl) as [-> Hm]. done.
Qed.

(** No match of the pattern starts before the one [search] returns. *)
Lemma search_leftmost r s : forall f pre m post,
  search r s = Some f -> s = pre ++ m ++ post -> Matches r m ->
  length (before f) <= length pre.
Proof.
  induction s as [|c s IH]; intros f pre m post; simpl.
  - destruct (exec r []) as [[m' rest]|] eqn:He; [|discriminate].
    intros [= <-]. simpl. lia.
  - destruct (exec r (c :: s)) as [[m' rest]|] eqn:He.
    + intros [= <-]. simpl. lia.
    + destruct (search r s) as [g|] eqn:Hs; [|discriminate].
      intros [= <-] Heq Hm. simpl.
      destruct pre as [|c' pre]; simpl in *.
      * destruct (exec_complete r m post Hm) as [y Hy]. congruence.
      * injection Heq as -> ->.
        specialize (IH g pre m post eq_refl eq_refl Hm). lia.
Qed.

Lemma search_complete r s : Contains r s -> is_Some (search r s).
Proof.
  intros (pre & m & post & -> & Hm).
  induction pre as [|c pre IH]; simpl.
  - destruct (exec_complete r m post Hm) as [[m' rest] He].
    destruct (m ++ post); simpl; by rewrite He.
  - destruct (exec r (c :: pre ++ m ++ post)) as [[m' rest]|]; [done|].
    by destruct IH as [g ->].
Qed.

Lemma search_none r s : search r s = None -> ~ Contains r s.
Proof.
  intros H Hc. apply search_complete in Hc as [f Hf]. congruence.
Qed.

Lemma matchOf_Some r s m :
  matchOf r s = Some m ->
  Matches r m /\ exists pre post, s = pre ++ m ++ post.
Proof.
  unfold matchOf. destruct (search r s) as [f|] eqn:H; [|discriminate].
  intros [= <-]. destruct (search_sound _ _ _ H) as [Heq Hm].
  split; [done|]. by exists (before f), (after f).
Qed.

Lemma matchOf_None r s : matchOf r s = None <-> ~ Contains r s.
Proof.
  unfold matchOf. split.
  - destruct (search r s) eqn:H; [discriminate|]. intros _. by apply search_none.
  - intros Hn. destruct (search r s) as [f|] eqn:H; [|done].
    destruct Hn. destruct (search_sound _ _ _ H) as [Heq Hm].
    by exists (before f), (matched f), (after f).
Qed.

Lemma matchOf_Contains r s : Contains r s -> is_Some (matchOf r s).
Proof.
  intros H. destruct (matchOf r s) eqn:E; [done|].
  by apply matchOf_None in E.
Qed.

(* ===================================================================== *)
(** ** What a match is made of *)
(* ===================================================================== *)

Lemma Matches_alphabet r m :
  Matches r m -> Forall (fun c => alphabet r c = true) m.
Proof.
  induction 1 as [p c Hp|r1 r2 s1 s2 _ IH1 _ IH2|r|r s _ IH|p lo hi s Hall _ _];
    simpl; [by repeat constructor| |constructor|done|done].
  apply Forall_app. split; eapply Forall_impl; eauto; simpl; intros c ->;
    [done|by rewrite orb_true_r].
Qed.

Lemma Matches_minLength r m : Matches r m -> minLength r <= length m.
Proof.
  induction 1; simpl; rewrite ?length_app; simpl; lia.
Qed.

Lemma Matches_nonempty r m : 0 < minLength r -> Matches r m -> m <> [].
Proof.
  intros Hr Hm%Matches_minLength ->. simpl in Hm. lia.
Qed.

Lemma matchOf_truthy r s m :
  0 < minLength r -> matchOf r s = Some m -> truthy (Some (VStr m)) = true.
Proof.
  intros Hr [Hm _]%matchOf_Some. apply (Matches_nonempty _ _ Hr) in Hm.
  by destruct m.
Qed.

Lemma Contains_Occurs r s : Contains r s <-> exists m, Occurs r m s.
Proof.
  split.
  - intros (pre & m & post & -> & Hm). exists m. split; [done|by exists pre, post].
  - intros (m & Hm & pre & post & ->). by exists pre, m, post.
Qed.

(* ===================================================================== *)
(** ** Characters and trimming *)
(* ===================================================================== *)

(** Facts about single characters are settled by running through the 256
    of them. *)
Ltac by_cases_on c :=
  destruct c as [[] [] [] [] [] [] [] []]; vm_compute;
  try done; try (intros; congruence).

Lemma code_inj a c : (code a =? code c)%N = true -> a = c.
Proof.
  intros H. apply N.eqb_eq in H. unfold code in H.
  rewrite <- (ascii_N_embedding a), <- (ascii_N_embedding c). by rewrite H.
Qed.

Lemma isChar_eq a c : isChar a c = true -> c = a.
Proof. apply code_inj. Qed.

Lemma digit_not_space c : isDigit c = true -> isSpace c = false.
Proof. by_cases_on c. Qed.

Lemma dropWhile_split p s :
  exists a, s = a ++ dropWhile p s /\ Forall (fun c => p c = true) a.
Proof.
  induction s as [|c s (a & Hs & Ha)]; simpl.
  - by exists [].
  - destruct (p c) eqn:Hp.
    + exists (c :: a). split; [by rewrite Hs at 1|by constructor].
    + by exists [].
Qed.

Lemma dropWhile_head p c s : p c = false -> dropWhile p (c :: s) = c :: s.
Proof. intros H. simpl. by rewrite H. Qed.

(** What [trim] removes is white space on both sides. *)
Lemma trim_split s :
  exists a b, s = a ++ trim s ++ b /\
    Forall (fun c => isSpace c = true) a /\ Forall (fun c => isSpace c = true) b.
Proof.
  destruct (dropWhile_split isSpace s) as (a & Hs & Ha).
  destruct (dropWhile_split isSpace (rev (dropWhile isSpace s))) as (b & Hr & Hb).
  exists a, (rev b). repeat split; [|done|by apply Forall_rev].
  unfold trim. rewrite <- rev_app_distr, <- Hr, rev_involutive. done.
Qed.

Lemma trim_id s :
  (forall c, head s = Some c -> isSpace c = false) ->
  (forall c, last s = Some c -> isSpace c = false) ->
  trim s = s.
Proof.
  intros Hh Hl. unfold trim.
  destruct s as [|c s]; [done|].
  rewrite (dropWhile_head _ c s) by (by apply Hh).
  destruct (rev (c :: s)) as [|d t] eqn:Hrev.
  - apply (f_equal (@rev ascii)) in Hrev. by rewrite rev_involutive in Hrev.
  - rewrite (dropWhile_head _ d t).
    + by rewrite <- Hrev, rev_involutive.
    + apply Hl. rewrite <- (rev_involutive (c :: s)), Hrev. simpl.
      by rewrite last_snoc.
Qed.



Lemma startsWith_plus s :
  startsWith (js "+") s = true <-> exists s', s = "+"%char :: s'.
Proof.
  unfold startsWith, js, list_ascii_of_string, stripPrefix.
  destruct s as [|c s].
  - split.
    + intros H. discriminate H.
    + intros [s' H]. discriminate H.
  - destruct (code "+" =? code c)%N eqn:H.
    + apply code_inj in H as <-. split; [by exists s|done].
    + split.
      * intros H'. discriminate H'.
      * intros [s' H']. injection H' as -> _. by vm_compute in H.
Qed.

(* ===================================================================== *)
(** ** C7 - phone numbers *)
(* ===================================================================== *)




(* ===================================================================== *)
(** ** One turn of each handler, by stage *)
(* ===================================================================== *)

Lemma sessionOf_lookup (sessions : store) user s :
  sessions !! user = Some s -> sessionOf sessions user = s.
Proof. unfold sessionOf. by intros ->. Qed.

Lemma sessionOf_insert (sessions : store) user s :
  sessionOf (<[user := s]> sessions) user = s.
Proof. unfold sessionOf. by rewrite lookup_insert_eq. Qed.


Lemma V3_turn w sessions user message s s' reply :
  tokens w = true -> sessions !! user = Some s ->
  ServerV3.advance w s message = (s', reply) ->
  ServerV3.handleUserMessage w sessions user message =
    (<[user := s']> sessions, reply).
Proof.
  intros Ht Hs Ha. unfold ServerV3.handleUserMessage.
  by rewrite Ht, (sessionOf_lookup _ _ _ Hs), Ha.
Qed.


Lemma Lazy_turn w sessions user message s s' reply :
  sessions !! user = Some s ->
  SmsLazy.advance w s message = (s', reply) ->
  SmsLazy.handleUserMessage w sessions user message =
    (<[user := s']> sessions, reply).
Proof.
  intros Hs Ha. unfold SmsLazy.handleUserMessage.
  by rewrite (sessionOf_lookup _ _ _ Hs), Ha.
Qed.


Lemma V3_advance_creating w s message :
  stage s = creating -> ServerV3.advance w s message = ServerV3.book w s.
Proof.
  intros Hs. unfold ServerV3.advance, ServerV3.collect. rewrite Hs.
  by rewrite bool_decide_eq_true_2.
Qed.


Lemma Webhook_advance_creating w s body :
  stage s = creating ->
  SmsWebhook.advance w s body = Some (SmsWebhook.book w s).
Proof.
  intros Hs. unfold SmsWebhook.advance, SmsWebhook.collect. rewrite Hs.
  by rewrite bool_decide_eq_true_2.
Qed.

Lemma setStage_same s : setStage (stage s) s = s.
Proof. by destruct s. Qed.

(** The fields one by one, from the search of the first missing one. *)
Lemma allPresent_fields s :
  allPresent s <->
  truthy (data s !! "date") = true /\ truthy (data s !! "time") = true /\
  truthy (data s !! "duration") = true /\ truthy (data s !! "email") = true.
Proof.
  unfold allPresent, firstMissingStage, bookingFields, missing. simpl.
  destruct (truthy (data s !! "date")), (truthy (data s !! "time")),
    (truthy (data s !! "duration")), (truthy (data s !! "email")); simpl;
    split; try done; intros (? & ? & ? & ?); done.
Qed.




Lemma present_no_missing s :
  allPresent s ->
  (negb (truthy (data s !! "date")) || negb (truthy (data s !! "time"))
   || negb (truthy (data s !! "duration")) || negb (truthy (data s !! "email")))
    = false.
Proof. intros (-> & -> & -> & ->)%allPresent_fields. done. Qed.

(* ===================================================================== *)
(** ** C3 - a missing field sends the session back to its stage *)
(* ===================================================================== *)



(* ===================================================================== *)
(** ** C4 - a taken slot *)
(* ===================================================================== *)

Lemma V3_book_busy w s :
  allPresent s ->
  slotBusy w (ServerV3.startEnd w (data s !! "date") (data s !! "time")
                (data s !! "duration")) ->
  ServerV3.book w s = (setStage awaiting_time s, ServerV3.slotTaken).
Proof.
  intros Hp (a & b & Hse & Hfree). unfold ServerV3.book.
  by rewrite (present_no_missing _ Hp), Hse, Hfree.
Qed.

Lemma Lazy_advance_creating w s message :
  tokens w = true -> stage s = creating ->
  SmsLazy.advance w s message =
    match SmsLazy.book w s with
    | Some r => r
    | None => (s, SmsLazy.genericError)
    end.
Proof. intros Ht Hs. unfold SmsLazy.advance. by rewrite Hs, Ht. Qed.

Lemma Lazy_book_busy w s :
  slotBusy w (SmsLazy.startEnd w (data s !! "date") (data s !! "time")
                (data s !! "duration")) ->
  SmsLazy.book w s = Some (setStage awaiting_time s, SmsLazy.slotTaken).
Proof.
  intros (a & b & Hse & Hfree). unfold SmsLazy.book. by rewrite Hse, Hfree.
Qed.

(** C4: a session in stage [creating] with the four fields present, for
    which the calendar answers that the slot is not free, is set to
    [awaiting_time] and keeps its data as it was, in
    src/backend/serverv3.js and in the second server of part_003. *)
Theorem slot_taken_keeps_data (w : world) (sessions : store) user message s :
  tokens w = true -> sessions !! user = Some s -> stage s = creating ->
  allPresent s ->
  (slotBusy w (ServerV3.startEnd w (data s !! "date") (data s !! "time")
                 (data s !! "duration")) ->
   exists s',
     ServerV3.handleUserMessage w sessions user message =
       (<[user := s']> sessions, ServerV3.slotTaken) /\
     stage s' = awaiting_time /\ data s' = data s) /\
  (slotBusy w (SmsLazy.startEnd w (data s !! "date") (data s !! "time")
                 (data s !! "duration")) ->
   exists s',
     SmsLazy.handleUserMessage w sessions user message =
       (<[user := s']> sessions, SmsLazy.slotTaken) /\
     stage s' = awaiting_time /\ data s' = data s).
Proof.
  intros Ht Hs Hc Hp. split; intros Hb; exists (setStage awaiting_time s);
    (split; [|done]).
  - apply (V3_turn _ _ _ _ s); [done..|].
    rewrite V3_advance_creating by done. by apply V3_book_busy.
  - apply (Lazy_turn _ _ _ _ s); [done|].
    rewrite Lazy_advance_creating by done. by rewrite Lazy_book_busy.
Qed.

(** Instances: the session of the scenario and a calendar that is busy, in
    both handlers. *)
Lemma slot_taken_keeps_data_witness :
  let s := mkSession creating exampleData in
  let sessions : store := {[ user1 := s ]} in
  let w := exampleWorld true (Some false) in
  (exists s',
     ServerV3.handleUserMessage w sessions user1 (js "a@b.com") =
       (<[user1 := s']> sessions, ServerV3.slotTaken) /\
     stage s' = awaiting_time /\ data s' = data s) /\
  (exists s',
     SmsLazy.handleUserMessage w sessions user1 (js "a@b.com") =
       (<[user1 := s']> sessions, SmsLazy.slotTaken) /\
     stage s' = awaiting_time /\ data s' = data s).
Proof.
  intros s sessions w.
  destruct (slot_taken_keeps_data w sessions user1 (js "a@b.com") s)
    as [H3 Hlazy]; try reflexivity.
  split; [apply H3|apply Hlazy]; eexists _, _; split; reflexivity.
Defined.

(* ===================================================================== *)
(** ** C5 - a booking that goes through *)
(* ===================================================================== *)

Lemma Within_app_l a sub rest : Within sub (a ++ sub ++ rest).
Proof. by exists a, rest. Qed.

Lemma Within_app_skip a sub s : Within sub s -> Within sub (a ++ s).
Proof.
  intros (pre & post & ->). exists (a ++ pre), post. by rewrite <- app_assoc.
Qed.

Lemma V3_startEnd_strings w date time duration r :
  ServerV3.startEnd w date time duration = Some r ->
  exists d t, date = Some (VStr d) /\ time = Some (VStr t).
Proof.
  unfold ServerV3.startEnd.
  destruct date as [[d|]|]; try discriminate.
  destruct time as [[t|]|]; try discriminate. eauto.
Qed.

Lemma Lazy_startEnd_strings w date time duration r :
  SmsLazy.startEnd w date time duration = Some r -> truthy time = true ->
  exists d t, date = Some (VStr d) /\ time = Some (VStr t).
Proof.
  unfold SmsLazy.startEnd.
  destruct date as [[d|]|]; try discriminate.
  destruct time as [[t|n]|]; [eauto| |discriminate].
  intros H Ht. rewrite Ht in H. discriminate.
Qed.

Lemma V3_book_free w s ev :
  allPresent s ->
  booked w ServerV3.summary
    (ServerV3.startEnd w (data s !! "date") (data s !! "time")
       (data s !! "duration")) (data s !! "email") ev ->
  exists link,
    ServerV3.book w s =
      (setStage completed s,
       ServerV3.confirmation (data s !! "date") (data s !! "time")
         (data s !! "email") link).
Proof.
  intros Hp (a & b & Hse & Hfree & Hev). unfold ServerV3.book.
  rewrite (present_no_missing _ Hp), Hse, Hfree, Hev. eauto.
Qed.

Lemma Lazy_book_free w s ev :
  booked w SmsLazy.summary
    (SmsLazy.startEnd w (data s !! "date") (data s !! "time")
       (data s !! "duration")) (data s !! "email") ev ->
  exists link,
    SmsLazy.book w s =
      Some (setStage completed s,
            SmsLazy.confirmation (data s !! "date") (data s !! "time")
              (data s !! "email") link).
Proof.
  intros (a & b & Hse & Hfree & Hev). unfold SmsLazy.book.
  rewrite Hse, Hfree, Hev. eauto.
Qed.

Lemma V3_confirmation_shows d t email link :
  Within d (ServerV3.confirmation (Some (VStr d)) (Some (VStr t)) email link) /\
  Within t (ServerV3.confirmation (Some (VStr d)) (Some (VStr t)) email link).
Proof.
  unfold ServerV3.confirmation, display. split.
  - apply Within_app_l.
  - do 2 apply Within_app_skip. apply Within_app_l.
Qed.

Lemma Lazy_confirmation_shows d t email link :
  Within d (SmsLazy.confirmation (Some (VStr d)) (Some (VStr t)) email link) /\
  Within t (SmsLazy.confirmation (Some (VStr d)) (Some (VStr t)) email link).
Proof.
  unfold SmsLazy.confirmation, display. split.
  - apply Within_app_l.
  - do 2 apply Within_app_skip. apply Within_app_l.
Qed.

(** C5: a session in stage [creating] with the four fields present, for
    which the calendar answers that the slot is free and creates the
    event, is set to [completed]; the date and the time it holds are
    strings, and the reply contains both as they are stored.  This holds in
    src/backend/serverv3.js and in the second server of part_003. *)
Theorem booking_completes (w : world) (sessions : store) user message s ev :
  tokens w = true -> sessions !! user = Some s -> stage s = creating ->
  allPresent s ->
  (booked w ServerV3.summary
     (ServerV3.startEnd w (data s !! "date") (data s !! "time")
        (data s !! "duration")) (data s !! "email") ev ->
   exists s' reply d t,
     ServerV3.handleUserMessage w sessions user message =
       (<[user := s']> sessions, reply) /\
     stage s' = completed /\ data s' = data s /\
     data s !! "date" = Some (VStr d) /\ data s !! "time" = Some (VStr t) /\
     Within d reply /\ Within t reply) /\
  (booked w SmsLazy.summary
     (SmsLazy.startEnd w (data s !! "date") (data s !! "time")
        (data s !! "duration")) (data s !! "email") ev ->
   exists s' reply d t,
     SmsLazy.handleUserMessage w sessions user message =
       (<[user := s']> sessions, reply) /\
     stage s' = completed /\ data s' = data s /\
     data s !! "date" = Some (VStr d) /\ data s !! "time" = Some (VStr t) /\
     Within d reply /\ Within t reply).
Proof.
  intros Ht Hs Hc Hp. split; intros Hb.
  - destruct (V3_book_free _ _ _ Hp Hb) as [link Hbook].
    destruct Hb as (a & b & Hse & _).
    destruct (V3_startEnd_strings _ _ _ _ _ Hse) as (d & t & Hd & Htm).
    exists (setStage completed s), (ServerV3.confirmation (data s !! "date")
      (data s !! "time") (data s !! "email") link), d, t.
    split; [|repeat split; try done].
    + apply (V3_turn _ _ _ _ s); [done..|]. by rewrite V3_advance_creating.
    + rewrite Hd, Htm. apply V3_confirmation_shows.
    + rewrite Hd, Htm. apply V3_confirmation_shows.
  - destruct (Lazy_book_free _ _ _ Hb) as [link Hbook].
    destruct Hb as (a & b & Hse & _).
    apply allPresent_fields in Hp as (_ & Hpt & _).
    destruct (Lazy_startEnd_strings _ _ _ _ _ Hse Hpt) as (d & t & Hd & Htm).
    exists (setStage completed s), (SmsLazy.confirmation (data s !! "date")
      (data s !! "time") (data s !! "email") link), d, t.
    split; [|repeat split; try done].
    + apply (Lazy_turn _ _ _ _ s); [done|].
      by rewrite Lazy_advance_creating, Hbook.
    + rewrite Hd, Htm. apply Lazy_confirmation_shows.
    + rewrite Hd, Htm. apply Lazy_confirmation_shows.
Qed.

(** Instances: the session of the scenario and a free calendar, in both
    handlers. *)
Lemma booking_completes_witness :
  let s := mkSession creating exampleData in
  let sessions : store := {[ user1 := s ]} in
  let w := exampleWorld true (Some true) in
  (exists s' reply d t,
     ServerV3.handleUserMessage w sessions user1 (js "a@b.com") =
       (<[user1 := s']> sessions, reply) /\
     stage s' = completed /\ data s' = data s /\
     data s !! "date" = Some (VStr d) /\ data s !! "time" = Some (VStr t) /\
     Within d reply /\ Within t reply) /\
  (exists s' reply d t,
     SmsLazy.handleUserMessage w sessions user1 (js "a@b.com") =
       (<[user1 := s']> sessions, reply) /\
     stage s' = completed /\ data s' = data s /\
     data s !! "date" = Some (VStr d) /\ data s !! "time" = Some (VStr t) /\
     Within d reply /\ Within t reply).
Proof.
  intros s sessions w.
  destruct (booking_completes w sessions user1 (js "a@b.com") s
              (Event (Some (js "https://meet.google.com/abc-defg-hij")) None))
    as [H3 Hlazy]; try reflexivity.
  split; [apply H3|apply Hlazy]; eexists _, _; repeat split; reflexivity.
Defined.

(* ===================================================================== *)
(** ** C8 - a completed session *)
(* ===================================================================== *)

Lemma V3_advance_completed w s message :
  stage s = completed ->
  ServerV3.advance w s message = (s, ServerV3.alreadyBooked).
Proof.
  intros Hs. destruct s as [st d]. simpl in Hs. by subst st.
Qed.






(* ===================================================================== *)
(** ** C9 - fields are never removed *)
(* ===================================================================== *)

Ltac keeps_fields :=
  repeat (case_match; simplify_eq; simpl);
  unfold storeMatch, setStage, setData; simpl;
  repeat (case_match; simplify_eq; simpl);
  rewrite ?dom_insert_L; set_solver.

Lemma V3_collect_keeps cleaned lower s :
  keeps s (ServerV3.collect cleaned lower s).1.
Proof. unfold ServerV3.collect. destruct (stage s); keeps_fields. Qed.

Lemma V3_book_keeps w s : data (ServerV3.book w s).1 = data s.
Proof.
  unfold ServerV3.book. repeat (case_match; simpl; try done).
Qed.

Lemma V3_advance_keeps w s message : keeps s (ServerV3.advance w s message).1.
Proof.
  unfold ServerV3.advance.
  pose proof (V3_collect_keeps (ServerV3.cleanedText message)
                (toLowerCase (ServerV3.cleanedText message)) s) as H.
  destruct (ServerV3.collect _ _ s) as [s1 r1]. simpl in H.
  repeat case_match; simpl; try done.
  by rewrite V3_book_keeps.
Qed.

Lemma Lazy_advance_keeps w s message : keeps s (SmsLazy.advance w s message).1.
Proof.
  unfold SmsLazy.advance, SmsLazy.book. destruct (stage s); keeps_fields.
Qed.

Lemma V3_handle_keeps (w : world) (sessions : store) user message :
  keeps (sessionOf sessions user)
        (sessionOf (ServerV3.handleUserMessage w sessions user message).1 user).
Proof.
  unfold ServerV3.handleUserMessage. destruct (tokens w); simpl; [|done].
  pose proof (V3_advance_keeps w (sessionOf sessions user) message) as H.
  destruct (ServerV3.advance _ _ _) as [s' r]. simpl in *.
  by rewrite sessionOf_insert.
Qed.

Lemma Lazy_handle_keeps (w : world) (sessions : store) user message :
  keeps (sessionOf sessions user)
        (sessionOf (SmsLazy.handleUserMessage w sessions user message).1 user).
Proof.
  unfold SmsLazy.handleUserMessage.
  pose proof (Lazy_advance_keeps w (sessionOf sessions user) message) as H.
  destruct (SmsLazy.advance _ _ _) as [s' r]. simpl in *.
  by rewrite sessionOf_insert.
Qed.

Lemma turns_keep handle :
  (forall (w : world) (sessions : store) user message,
     keeps (sessionOf sessions user)
           (sessionOf (handle w sessions user message).1 user)) ->
  forall inputs (sessions : store) user,
    keeps (sessionOf sessions user)
          (sessionOf (turns handle sessions user inputs) user).
Proof.
  intros Hstep inputs. induction inputs as [|[w message] rest IH];
    intros sessions user; simpl; [done|].
  etrans; [apply (Hstep w sessions user message)|apply IH].
Qed.

(** C9: whatever the world, the stage and the message, every field that
    the data of a session holds before a turn is still there after it, and
    so after any sequence of turns, in [handleUserMessage] of
    src/backend/serverv3.js and of the second server of part_003. *)
Theorem data_fields_never_removed (sessions : store) (user : text)
    (inputs : list (world * text)) (k : string) :
  (is_Some (data (sessionOf sessions user) !! k) ->
   is_Some (data (sessionOf
     (turns ServerV3.handleUserMessage sessions user inputs) user) !! k)) /\
  (is_Some (data (sessionOf sessions user) !! k) ->
   is_Some (data (sessionOf
     (turns SmsLazy.handleUserMessage sessions user inputs) user) !! k)).
Proof.
  split; intros H%elem_of_dom; apply elem_of_dom.
  - by apply (turns_keep _ V3_handle_keeps inputs sessions user).
  - by apply (turns_keep _ Lazy_handle_keeps inputs sessions user).
Qed.

(** An instance: three turns, one of them without a token; the date is
    still there. *)
Lemma data_fields_never_removed_witness :
  let s := mkSession awaiting_email (delete "email" exampleData) in
  let sessions : store := {[ user1 := s ]} in
  let inputs := [(exampleWorld true (Some false), js "a@b.com");
                 (exampleWorld false None, js "11:30");
                 (exampleWorld true (Some true), js "11:30")] in
  is_Some (data (sessionOf
     (turns ServerV3.handleUserMessage sessions user1 inputs) user1) !! "date").
Proof.
  intros s sessions inputs.
  refine (proj1 (data_fields_never_removed sessions user1 inputs "date") _).
  exists (VStr (js "08.11.2025")). reflexivity.
Defined.

(* ===================================================================== *)
(** ** C2 - an exception while booking *)
(* ===================================================================== *)


Lemma Webhook_book_throws w s :
  tokens w = true ->
  bookingThrows w SmsWebhook.summary
    (SmsWebhook.startEnd w (data s !! "date") (data s !! "time")
       (data s !! "duration")) (data s !! "email") ->
  SmsWebhook.book w s = (s, SmsWebhook.createFailed).
Proof.
  intros Ht. unfold bookingThrows, SmsWebhook.book. rewrite Ht. simpl.
  destruct (SmsWebhook.startEnd _ _ _ _) as [[a b]|]; [|done].
  destruct (isSlotFree w a b) as [[]|]; [|done..].
  by intros ->.
Qed.




(* ===================================================================== *)
(** ** C6 - no stored credential *)
(* ===================================================================== *)

Lemma Webhook_book_no_token w s :
  tokens w = false -> SmsWebhook.book w s = (s, SmsWebhook.notConnected).
Proof. unfold SmsWebhook.book. by intros ->. Qed.





(* ===================================================================== *)
(** ** Filler words and what they leave alone *)
(* ===================================================================== *)

Lemma letter_is_word c : isLetter c = true -> isWordChar c = true.
Proof. by_cases_on c. Qed.

Lemma same_letter a c :
  isLetter a = true ->
  (code (lowerChar a) =? code (lowerChar c))%N = true -> isLetter c = true.
Proof.
  intros Ha H%code_inj. revert Ha H.
  assert (isLetter a = true -> isLetter (lowerChar a) = true) as H1
    by by_cases_on a.
  assert (isLetter (lowerChar c) = true -> isLetter c = true) as H2
    by by_cases_on c.
  intros Ha H. apply H2. rewrite <- H. by apply H1.
Qed.

Lemma stripPrefixCI_split p : forall s rest,
  stripPrefixCI p s = Some rest ->
  Forall (fun c => isLetter c = true) p ->
  exists f, s = f ++ rest /\ length f = length p /\
            Forall (fun c => isLetter c = true) f.
Proof.
  induction p as [|a p IH]; intros s rest H Hp; simpl in H.
  - injection H as ->. by exists [].
  - destruct s as [|c s]; [discriminate|].
    destruct (code (lowerChar a) =? code (lowerChar c))%N eqn:Hac; [|discriminate].
    apply Forall_cons in Hp as [Ha Hp].
    destruct (IH _ _ H Hp) as (f & -> & Hlen & Hf).
    exists (c :: f). repeat split; [simpl; by rewrite Hlen|].
    constructor; [by apply (same_letter a)|done].
Qed.

Lemma wordAt_split w s n :
  wordAt w s = Some n ->
  Forall (fun c => isLetter c = true) (js w) ->
  exists f rest, s = f ++ rest /\ length f = n /\
    Forall (fun c => isLetter c = true) f /\ boundaryAfter rest = true.
Proof.
  unfold wordAt. intros H Hw.
  destruct (stripPrefixCI (js w) s) as [rest|] eqn:Hs; [|discriminate].
  destruct (boundaryAfter rest) eqn:Hb; [|discriminate].
  injection H as <-.
  destruct (stripPrefixCI_split _ _ _ Hs Hw) as (f & -> & Hlen & Hf).
  by exists f, rest.
Qed.

(** A filler word found at a position: letters only, between a boundary
    before and a boundary behind. *)
Lemma fillerAt_split prev s n :
  fillerAt prev s = Some n ->
  boundaryBefore prev = true /\
  exists f rest, s = f ++ rest /\ length f = n /\ 0 < n /\
    Forall (fun c => isLetter c = true) f /\ boundaryAfter rest = true.
Proof.
  unfold fillerAt. destruct (boundaryBefore prev); [|discriminate].
  intros H. split; [done|].
  assert (exists w, wordAt w s = Some n /\
            Forall (fun c => isLetter c = true) (js w) /\ 0 < length (js w))
    as (w & Hw & Hl & Hpos).
  { destruct (wordAt "um" s) eqn:H1.
    - exists "um". injection H as <-. repeat split; [done| |simpl; lia].
      by repeat constructor.
    - destruct (wordAt "gegen" s) eqn:H2.
      + exists "gegen". injection H as <-. repeat split; [done| |simpl; lia].
        by repeat constructor.
      + exists "Uhr". repeat split; [done| |simpl; lia].
        by repeat constructor. }
  destruct (wordAt_split _ _ _ Hw Hl) as (f & rest & -> & Hlen & Hf & Hb).
  exists f, rest. repeat split; try done.
  unfold wordAt in Hw.
  destruct (stripPrefixCI (js w) (f ++ rest)); [|discriminate].
  destruct (boundaryAfter _); [|discriminate]. injection Hw as <-. lia.
Qed.

Lemma fillerAt_after_word c s :
  isWordChar c = true -> fillerAt (Some c) s = None.
Proof. intros H. unfold fillerAt. simpl. by rewrite H. Qed.

Lemma fillerAt_not_letter prev c s :
  isLetter c = false -> fillerAt prev (c :: s) = None.
Proof.
  intros Hc. destruct (fillerAt prev (c :: s)) as [n|] eqn:H; [|done].
  apply fillerAt_split in H as (_ & f & rest & Heq & Hlen & Hpos & Hf & _).
  destruct f as [|d f]; [simpl in Hlen; lia|].
  injection Heq as <- _. apply Forall_cons in Hf as [Hd _]. congruence.
Qed.

(** The rest of a matched word is dropped, and the scan goes on behind
    it. *)
Lemma removeFrom_skip f : forall prev rest,
  removeFrom (length f) prev (f ++ rest) = removeFrom 0 (lastOr prev f) rest.
Proof.
  induction f as [|c f IH]; intros prev rest; [done|].
  simpl. rewrite IH. f_equal. unfold lastOr.
  rewrite (last_cons c f). by destruct (last f).
Qed.

Lemma removeFrom_step prev c s :
  removeFrom 0 prev (c :: s) =
    match fillerAt prev (c :: s) with
    | Some (S n) => removeFrom n (Some c) s
    | _ => c :: removeFrom 0 (Some c) s
    end.
Proof. done. Qed.

(** A run without letters goes through as it is. *)
Lemma removeFrom_block m : forall prev post,
  Forall (fun c => isLetter c = false) m ->
  removeFrom 0 prev (m ++ post) = m ++ removeFrom 0 (lastOr prev m) post.
Proof.
  induction m as [|c m IH]; intros prev post Hm; [done|].
  apply Forall_cons in Hm as [Hc Hm].
  change ((c :: m) ++ post) with (c :: (m ++ post)).
  rewrite removeFrom_step, (fillerAt_not_letter prev c _ Hc), IH by done.
  simpl. do 2 f_equal. unfold lastOr.
  rewrite (last_cons c m). by destruct (last m).
Qed.

(** What is removed before such a run is a matter of the text before it. *)
Lemma removeFrom_keeps_block m post : forall pre skip prev,
  m <> [] -> Forall (fun c => isLetter c = false) m ->
  Forall (fun c => isLetter c = true) (take skip (pre ++ m ++ post)) ->
  exists pre',
    removeFrom skip prev (pre ++ m ++ post) =
      pre' ++ m ++ removeFrom 0 (last m) post /\
    (forall P : ascii -> Prop, Forall P pre -> Forall P pre').
Proof.
  intros pre. induction pre as [|c pre IH]; intros skip prev Hne Hm Hskip.
  - destruct m as [|d m]; [done|].
    destruct skip as [|k].
    + exists []. split; [|done].
      change ([] ++ (d :: m) ++ post) with ((d :: m) ++ post).
      rewrite removeFrom_block by done. unfold lastOr.
      by destruct (last (d :: m)) eqn:Hl;
        [|apply last_None in Hl].
    + simpl in Hskip. apply Forall_cons in Hskip as [Hd _].
      apply Forall_cons in Hm as [Hd' _]. congruence.
  - change ((c :: pre) ++ m ++ post) with (c :: (pre ++ m ++ post)) in *.
    destruct skip as [|k].
    + rewrite removeFrom_step.
      destruct (fillerAt prev (c :: pre ++ m ++ post)) as [[|n]|] eqn:Hf.
      * destruct (IH 0 (Some c) Hne Hm) as (pre' & -> & HP); [by constructor|].
        exists (c :: pre'). split; [done|].
        intros P [Hc Hpre]%Forall_cons. constructor; [done|by apply HP].
      * apply fillerAt_split in Hf as (_ & f & rest & Heq & Hlen & _ & Hfl & _).
        destruct f as [|d f]; [simpl in Hlen; lia|].
        injection Heq as <- Heq. simpl in Hlen.
        destruct (IH n (Some c) Hne Hm) as (pre' & -> & HP).
        { rewrite Heq. assert (n = length f) as -> by lia.
          rewrite take_app_length. by apply Forall_cons in Hfl as [_ ?]. }
        exists pre'. split; [done|].
        intros P [_ Hpre]%Forall_cons. by apply HP.
      * destruct (IH 0 (Some c) Hne Hm) as (pre' & -> & HP); [by constructor|].
        exists (c :: pre'). split; [done|].
        intros P [Hc Hpre]%Forall_cons. constructor; [done|by apply HP].
    + simpl in Hskip. apply Forall_cons in Hskip as [_ Hskip].
      simpl. destruct (IH k (Some c) Hne Hm Hskip) as (pre' & -> & HP).
      exists pre'. split; [done|].
      intros P [_ Hpre]%Forall_cons. by apply HP.
Qed.

(** Behind a word character the next character stays. *)
Lemma removeFrom_head c post :
  isWordChar c = true ->
  head (removeFrom 0 (Some c) post) = head post.
Proof.
  intros Hc. destruct post as [|d post]; [done|].
  by rewrite removeFrom_step, fillerAt_after_word.
Qed.

(** Behind a removed word comes nothing or a character that is not a word
    character. *)
Lemma removeFrom_after_filler prev c s n :
  fillerAt prev (c :: s) = Some (S n) ->
  forall d, head (removeFrom n (Some c) s) = Some d -> isWordChar d = false.
Proof.
  intros (_ & f & rest & Heq & Hlen & _ & Hf & Hb)%fillerAt_split d.
  destruct f as [|e f]; [simpl in Hlen; lia|].
  injection Heq as <- ->. simpl in Hlen. assert (n = length f) as -> by lia.
  rewrite removeFrom_skip.
  assert (exists l, lastOr (Some c) f = Some l /\ isWordChar l = true)
    as (l & -> & Hl).
  { apply Forall_cons in Hf as [Hc Hf]. unfold lastOr.
    destruct (last f) as [l|] eqn:Hlast.
    - exists l. split; [done|]. apply letter_is_word.
      apply last_Some in Hlast as [f' ->].
      by apply Forall_app in Hf as [_ [? _]%Forall_cons].
    - exists c. split; [done|]. by apply letter_is_word. }
  rewrite removeFrom_head by done.
  destruct rest as [|z rest]; [done|]. simpl in *. intros [= <-].
  by apply negb_true_iff.
Qed.

(** A tight run that starts what is left after [c] started the rest of the
    text. *)
Lemma removeFrom_prefix m0 : forall c s b,
  tight (c :: m0) = true ->
  removeFrom 0 (Some c) s = m0 ++ b ->
  exists b', s = m0 ++ b'.
Proof.
  induction m0 as [|d m1 IH]; intros c s b Ht H; [by exists s|].
  destruct s as [|e s]; [discriminate|].
  rewrite removeFrom_step in H.
  simpl in Ht. apply andb_true_iff in Ht as [Hcd Ht].
  assert (e :: removeFrom 0 (Some e) s = (d :: m1) ++ b ->
          exists b', e :: s = (d :: m1) ++ b') as Hemit.
  { intros [= -> H']. destruct (IH _ _ _ Ht H') as [b' ->]. by exists b'. }
  destruct (fillerAt (Some c) (e :: s)) as [[|n]|] eqn:Hf; [auto| |auto].
  exfalso.
  pose proof (removeFrom_after_filler _ _ _ _ Hf d) as Hd.
  rewrite H in Hd. specialize (Hd eq_refl).
  apply fillerAt_split in Hf as [Hb _]. simpl in Hb.
  apply negb_true_iff in Hb. rewrite Hb, Hd in Hcd. done.
Qed.

(** A tight run in what is left was in the text. *)
Lemma removeFrom_within m b s : forall skip prev a,
  m <> [] -> tight m = true ->
  removeFrom skip prev s = a ++ m ++ b -> Within m s.
Proof.
  induction s as [|c s IH]; intros skip prev a Hne Ht H.
  - simpl in H. destruct a, m; done.
  - assert (forall k p a', removeFrom k p s = a' ++ m ++ b -> Within m (c :: s))
      as Hdrop.
    { intros k p a' H'. destruct (IH k p a' Hne Ht H') as (x & y & ->).
      by exists (c :: x), y. }
    destruct skip as [|k]; [|by apply (Hdrop k (Some c) a)].
    rewrite removeFrom_step in H.
    assert (c :: removeFrom 0 (Some c) s = a ++ m ++ b -> Within m (c :: s))
      as Hemit.
    { destruct a as [|c' a]; simpl.
      - destruct m as [|c' m0]; [done|]. intros [= <- H'].
        destruct (removeFrom_prefix _ _ _ _ Ht H') as [b' ->].
        by exists [], b'.
      - intros [= <- H']. by apply (Hdrop 0 (Some c) a). }
    destruct (fillerAt prev (c :: s)) as [[|n]|]; [auto| |auto].
    by apply (Hdrop n (Some c) a).
Qed.

(* ===================================================================== *)
(** ** Dates and integers survive the cleaning of the text *)
(* ===================================================================== *)

(** White space falls off both ends of a text; [a] and [b] are what is
    left of the two ends. *)
Lemma dropWhile_keep p a m b :
  m <> [] -> Forall (fun c => p c = false) m ->
  exists a0 a', a = a0 ++ a' /\ dropWhile p (a ++ m ++ b) = a' ++ m ++ b.
Proof.
  intros Hne Hm. induction a as [|c a (a0 & a' & Ha & IH)]; simpl.
  - exists [], []. split; [done|]. destruct m as [|c m]; [done|].
    apply Forall_cons in Hm as [Hc _]. simpl. by rewrite Hc.
  - destruct (p c).
    + exists (c :: a0), a'. split; [by rewrite Ha|done].
    + by exists [], (c :: a).
Qed.

Lemma trim_keep pre m post :
  m <> [] -> Forall (fun c => isSpace c = false) m ->
  exists pre0 pre' post' post0,
    pre = pre0 ++ pre' /\ post = post' ++ post0 /\
    trim (pre ++ m ++ post) = pre' ++ m ++ post'.
Proof.
  intros Hne Hall. unfold trim.
  destruct (dropWhile_keep isSpace pre m post Hne Hall) as (pre0 & pre' & Hpre & ->).
  rewrite !rev_app_distr, <- app_assoc.
  destruct (dropWhile_keep isSpace (rev post) (rev m) (rev pre'))
    as (q0 & q' & Hq & ->).
  - intros H%(f_equal (@rev ascii)). by rewrite rev_involutive in H.
  - by apply Forall_rev.
  - exists pre0, pre', (rev q'), (rev q0). split; [done|]. split.
    + by rewrite <- rev_app_distr, <- Hq, rev_involutive.
    + by rewrite !rev_app_distr, !rev_involutive, <- app_assoc.
Qed.

Lemma Occurs_trim r m s :
  0 < minLength r ->
  (forall c, alphabet r c = true -> isSpace c = false) ->
  Occurs r m (trim s) <-> Occurs r m s.
Proof.
  intros Hlen Hsp. split; intros [Hm (pre & post & Heq)]; (split; [done|]).
  - destruct (trim_split s) as (a & b & Hs & _).
    exists (a ++ pre), (post ++ b). rewrite Hs, Heq.
    by rewrite <- !app_assoc.
  - assert (m <> []) as Hne by (by apply (Matches_nonempty r)).
    assert (Forall (fun c => isSpace c = false) m) as Hall.
    { eapply Forall_impl; [by apply Matches_alphabet|]. apply Hsp. }
    subst s.
    destruct (trim_keep pre m post Hne Hall) as (_ & pre' & post' & _ & _ & _ & ->).
    by exists pre', post'.
Qed.



Lemma date_no_space c : alphabet dateRe c = true -> isSpace c = false.
Proof. by_cases_on c. Qed.

Lemma date_no_letter c : alphabet dateRe c = true -> isLetter c = false.
Proof. by_cases_on c. Qed.



Lemma digit_is_word c : isDigit c = true -> isWordChar c = true.
Proof. by_cases_on c. Qed.


(** A date is three groups of digits with one character between each
    two. *)
Lemma date_shape m :
  Matches dateRe m ->
  exists s1 c1 s2 c2 s3,
    m = s1 ++ c1 :: s2 ++ c2 :: s3 /\
    Forall (fun c => isDigit c = true) s1 /\ s1 <> [] /\
    Forall (fun c => isDigit c = true) s2 /\ s2 <> [] /\
    Forall (fun c => isDigit c = true) s3 /\ s3 <> [].
Proof.
  unfold dateRe, Chr. intros Hm.
  inversion Hm as [|? ? s1 t1 H1 Ht1| | |]; subst.
  inversion Ht1 as [|? ? u1 t2 Hu1 Ht2| | |]; subst.
  inversion Ht2 as [|? ? s2 t3 H2 Ht3| | |]; subst.
  inversion Ht3 as [|? ? u2 s3 Hu2 H3| | |]; subst.
  inversion Hu1 as [? c1 _| | | |]; subst.
  inversion Hu2 as [? c2 _| | | |]; subst.
  inversion H1 as [| | | |? ? ? ? Hall1 Hlo1 _]; subst.
  inversion H2 as [| | | |? ? ? ? Hall2 Hlo2 _]; subst.
  inversion H3 as [| | | |? ? ? ? Hall3 Hlo3 _]; subst.
  exists s1, c1, s2, c2, s3. repeat split; try done.
  all: intros ->; simpl in *; lia.
Qed.

Lemma tight_digit d rest : isDigit d = true -> tight (d :: rest) = tight rest.
Proof.
  intros Hd%digit_is_word. simpl. rewrite Hd. by destruct rest.
Qed.

Lemma tight_digits s rest :
  Forall (fun c => isDigit c = true) s -> tight (s ++ rest) = tight rest.
Proof.
  induction 1 as [|d s Hd _ IH]; [done|].
  change ((d :: s) ++ rest) with (d :: (s ++ rest)). by rewrite tight_digit.
Qed.

Lemma tight_before_digits c s rest :
  Forall (fun c => isDigit c = true) s -> s <> [] ->
  tight (c :: s ++ rest) = tight rest.
Proof.
  intros Hs Hne. destruct s as [|d s]; [done|].
  pose proof Hs as [Hd%digit_is_word _]%Forall_cons.
  change (tight (c :: (d :: s) ++ rest)) with
    ((isWordChar c || isWordChar d) && tight ((d :: s) ++ rest)).
  by rewrite Hd, orb_true_r, tight_digits.
Qed.

Lemma date_tight m : Matches dateRe m -> tight m = true.
Proof.
  intros (s1 & c1 & s2 & c2 & s3 & -> & H1 & _ & H2 & N2 & H3 & N3)%date_shape.
  rewrite tight_digits by done.
  rewrite tight_before_digits by done.
  rewrite <- (app_nil_r s3). by rewrite tight_before_digits.
Qed.


(** Removing the filler words neither removes a date nor makes one. *)
Lemma Occurs_date_fillers m s :
  Occurs dateRe m (removeFillers s) <-> Occurs dateRe m s.
Proof.
  assert (Matches dateRe m -> m <> []) as Hne
    by (apply Matches_nonempty; simpl; lia).
  unfold removeFillers.
  split; intros [Hm (pre & post & Heq)]; (split; [done|]).
  - apply (removeFrom_within m post s 0 None pre);
      [by apply Hne|by apply date_tight|done].
  - subst s.
    destruct (removeFrom_keeps_block m post pre 0 None) as (pre' & -> & _);
      [by apply Hne| |by constructor|by eexists _, _].
    eapply Forall_impl; [by apply Matches_alphabet|]. apply date_no_letter.
Qed.

(** The dates in the text src/backend/serverv3.js searches are the dates
    in the message. *)
Lemma Occurs_date_cleaned m message :
  Occurs dateRe m (ServerV3.cleanedText message) <-> Occurs dateRe m message.
Proof.
  unfold ServerV3.cleanedText.
  rewrite Occurs_trim by (simpl; lia || apply date_no_space).
  apply Occurs_date_fillers.
Qed.


(* ===================================================================== *)
(** ** C10 - a duration of zero *)
(* ===================================================================== *)


Lemma search_unfold r s :
  search r s =
    match exec r s with
    | Some (m, rest) => Some (Found [] m rest)
    | None =>
        match s with
        | c :: s' =>
            match search r s' with
            | Some f => Some (Found (c :: before f) (matched f) (after f))
            | None => None
            end
        | [] => None
        end
    end.
Proof. by destruct s. Qed.



Lemma V3_advance_email w s message m :
  stage s = awaiting_email ->
  matchOf emailRe (ServerV3.cleanedText message) = Some m ->
  ServerV3.advance w s message =
    ServerV3.book w (setStage creating (setData "email" (VStr m) s)).
Proof.
  intros Hs Hm. unfold ServerV3.advance, ServerV3.collect.
  by rewrite Hs, Hm.
Qed.





(* ===================================================================== *)
(** ** C1 - the date *)
(* ===================================================================== *)

(** A date starts with a digit, which the pattern of the time accepts. *)
Lemma date_starts_with_time s : Contains dateRe s -> Contains timeRe s.
Proof.
  intros (pre & m & post & -> & Hm).
  apply date_shape in Hm as (s1 & c1 & s2 & c2 & s3 & -> & H1 & N1 & _).
  destruct s1 as [|c s1]; [done|].
  apply Forall_cons in H1 as [Hc _].
  exists pre, [c], (s1 ++ c1 :: s2 ++ c2 :: s3 ++ post). split.
  - simpl. by repeat (rewrite <- app_assoc; simpl).
  - unfold timeRe. change [c] with ([c] ++ []). constructor; [|constructor].
    constructor; [by repeat constructor|simpl; lia|].
    intros h [= <-]. simpl. lia.
Qed.


(** What src/backend/serverv3.js does in stage [awaiting_date]: date and
    time are both looked for in the cleaned text, and the stage follows
    from what the session then holds. *)
Lemma V3_advance_date w s message :
  stage s = awaiting_date ->
  let cleaned := ServerV3.cleanedText message in
  let s1 := storeMatch "time" (matchOf timeRe cleaned)
              (storeMatch "date" (matchOf dateRe cleaned) s) in
  ServerV3.advance w s message =
    if truthy (data s1 !! "date") && truthy (data s1 !! "time")
    then (setStage awaiting_duration s1, ServerV3.askDuration)
    else if negb (truthy (data s1 !! "date"))
    then (setStage awaiting_date s1, ServerV3.askDate)
    else (setStage awaiting_time s1, ServerV3.askTime (data s1 !! "date")).
Proof.
  intros Hs cleaned s1. unfold ServerV3.advance, ServerV3.collect.
  rewrite Hs. rewrite andb_false_r. fold cleaned. fold s1.
  destruct (truthy (data s1 !! "date")), (truthy (data s1 !! "time")); done.
Qed.

Lemma storeMatch_time_date m s :
  data (storeMatch "time" m s) !! "date" = data s !! "date".
Proof. destruct m; simpl; [by rewrite lookup_insert_ne|done]. Qed.

(** In src/backend/serverv3.js a date is always read as a time too: the
    time pattern matches the digits of the day, so a message with a date
    goes to [awaiting_duration] and the question for the time is never
    asked. *)
Lemma Contains_date_cleaned message :
  Contains dateRe (ServerV3.cleanedText message) <-> Contains dateRe message.
Proof.
  rewrite !Contains_Occurs. split; intros [m Hm]; exists m;
    by apply Occurs_date_cleaned.
Qed.

Lemma V3_date_read_as_time w s message :
  stage s = awaiting_date ->
  Contains dateRe message ->
  stage (ServerV3.advance w s message).1 = awaiting_duration.
Proof.
  intros Hs Hd%Contains_date_cleaned. rewrite V3_advance_date by done.
  destruct (matchOf_Contains _ _ Hd) as [m Hm].
  destruct (matchOf_Contains _ _ (date_starts_with_time _ Hd)) as [t Ht].
  pose proof (matchOf_truthy dateRe _ m ltac:(simpl; lia) Hm) as Hmt.
  pose proof (matchOf_truthy timeRe _ t ltac:(simpl; lia) Ht) as Htt.
  rewrite Hm, Ht.
  set (s1 := storeMatch "time" (Some t) (storeMatch "date" (Some m) s)).
  assert (data s1 !! "date" = Some (VStr m)) as ->.
  { unfold s1. rewrite storeMatch_time_date. simpl. by rewrite lookup_insert_eq. }
  assert (data s1 !! "time" = Some (VStr t)) as ->.
  { unfold s1. simpl. by rewrite lookup_insert_eq. }
  by rewrite Hmt, Htt.
Qed.




(* ===================================================================== *)
(** ** The sessions src/backend/serverv3.js can hold *)
(* ===================================================================== *)

Lemma truthy_date_match cleaned m :
  matchOf dateRe cleaned = Some m -> truthy (Some (VStr m)) = true.
Proof. apply matchOf_truthy. simpl. lia. Qed.

Lemma truthy_time_match cleaned m :
  matchOf timeRe cleaned = Some m -> truthy (Some (VStr m)) = true.
Proof. apply matchOf_truthy. simpl. lia. Qed.

Lemma V3_book_consistent w s :
  truthy (data s !! "date") = true -> truthy (data s !! "time") = true ->
  V3_consistent (ServerV3.book w s).1.
Proof.
  intros Hd Ht. unfold ServerV3.book, ServerV3.firstMissing, V3_consistent.
  rewrite Hd, Ht. simpl.
  repeat (case_match; simpl; try done).
Qed.

(** A turn keeps the stage and the fields of a session in step: no date
    before [awaiting_time], a date from there on, a time as well from
    [awaiting_duration] on. *)
Lemma V3_advance_consistent w s message :
  V3_consistent s -> V3_consistent (ServerV3.advance w s message).1.
Proof.
  intros Hs.
  set (cleaned := ServerV3.cleanedText message).
  destruct (stage s) eqn:Hst; unfold V3_consistent in Hs; rewrite Hst in Hs.
  - unfold ServerV3.advance, ServerV3.collect. rewrite Hst. fold cleaned.
    destruct (includes _ _ && _) eqn:Hterm; simpl.
    + unfold V3_consistent. done.
    + set (s1 := storeMatch "time" _ _).
      destruct (truthy (data s1 !! "date")) eqn:Hd,
        (truthy (data s1 !! "time")) eqn:Ht; simpl;
        unfold V3_consistent; simpl; by rewrite ?Hd, ?Ht.
  - rewrite V3_advance_date by done. simpl. fold cleaned.
    set (s1 := storeMatch "time" _ _).
    destruct (truthy (data s1 !! "date")) eqn:Hd,
      (truthy (data s1 !! "time")) eqn:Ht; simpl;
      unfold V3_consistent; simpl; by rewrite ?Hd, ?Ht.
  - unfold ServerV3.advance, ServerV3.collect. rewrite Hst. fold cleaned.
    destruct (matchOf timeRe cleaned) as [m|] eqn:Hm; simpl.
    + unfold V3_consistent. simpl.
      rewrite lookup_insert_ne, lookup_insert_eq by done.
      split; [done|by apply (truthy_time_match cleaned)].
    + rewrite Hst. simpl. unfold V3_consistent. by rewrite Hst.
  - unfold ServerV3.advance, ServerV3.collect. rewrite Hst. fold cleaned.
    destruct (matchOf durationRe cleaned) as [m|] eqn:Hm; simpl.
    + unfold V3_consistent. simpl. by rewrite !lookup_insert_ne by done.
    + rewrite Hst. simpl. unfold V3_consistent. by rewrite Hst.
  - destruct (matchOf emailRe cleaned) as [m|] eqn:Hm.
    + rewrite (V3_advance_email w s message m) by done.
      apply V3_book_consistent; simpl; rewrite lookup_insert_ne by done;
        apply Hs.
    + unfold ServerV3.advance, ServerV3.collect. rewrite Hst. fold cleaned.
      rewrite Hm. simpl. rewrite Hst. simpl. unfold V3_consistent.
      by rewrite Hst.
  - rewrite V3_advance_creating by done. destruct Hs.
    by apply V3_book_consistent.
  - rewrite V3_advance_completed by done. simpl. unfold V3_consistent.
    by rewrite Hst.
Qed.

Lemma V3_fresh_consistent : V3_consistent freshSession.
Proof. reflexivity. Qed.

(** Every session the handler stores is of that kind, from the empty map
    on. *)
Lemma V3_handle_wellformed (w : world) (sessions : store) user message :
  V3_wellformed sessions ->
  V3_wellformed (ServerV3.handleUserMessage w sessions user message).1.
Proof.
  intros Hwf. unfold ServerV3.handleUserMessage.
  destruct (tokens w); simpl; [|done].
  destruct (ServerV3.advance w (sessionOf sessions user) message)
    as [s' reply] eqn:Ha. simpl.
  intros u s. destruct (decide (u = user)) as [->|Hne].
  - rewrite lookup_insert_eq. intros [= <-].
    pose proof (V3_advance_consistent w (sessionOf sessions user) message) as H.
    rewrite Ha in H. apply H. unfold sessionOf.
    destruct (sessions !! user) as [s0|] eqn:Hs0; simpl.
    + by apply (Hwf user).
    + apply V3_fresh_consistent.
  - rewrite lookup_insert_ne by done. apply Hwf.
Qed.

Lemma V3_turns_wellformed (sessions : store) user inputs :
  V3_wellformed sessions ->
  V3_wellformed (turns ServerV3.handleUserMessage sessions user inputs).
Proof.
  revert sessions. induction inputs as [|[w message] rest IH];
    intros sessions Hwf; simpl; [done|].
  apply IH. by apply V3_handle_wellformed.
Qed.

Lemma V3_empty_wellformed : V3_wellformed ∅.
Proof. intros user s H. by rewrite lookup_empty in H. Qed.

(* ===================================================================== *)
(** ** The scenario of the specification *)
(* ===================================================================== *)

(** The handler of part_002 walks through the scenario as written: date,
    time, duration and address one message each, then the booking. *)
Example scenario_part_002 :
  let w := exampleWorld true (Some true) in
  let sessions : store := {[ user1 := mkSession awaiting_date ∅ ]} in
  let said := [js "Termin am 08.11.2025"; js "10:00"; js "30"; js "a@b.com"] in
  let final := turns SmsV2.handleUserMessage sessions user1 (pair w <$> said) in
  final !! user1 = Some (mkSession completed exampleData).
Proof. vm_compute. reflexivity. Qed.

(** src/backend/serverv3.js reads the day of the date as the time and
    skips the question for the time. *)
Example scenario_serverv3 :
  let w := exampleWorld true (Some true) in
  let sessions : store := {[ user1 := mkSession awaiting_date ∅ ]} in
  let r := ServerV3.handleUserMessage w sessions user1 (js "Termin am 08.11.2025") in
  r.1 !! user1 =
    Some (mkSession awaiting_duration
            (<["time" := VStr (js "08")]> (<["date" := VStr (js "08.11.2025")]> ∅))) /\
  r.2 = ServerV3.askDuration.
Proof. vm_compute. split; reflexivity. Qed.

(* ===================================================================== *)
(** ** One turn and the sessions of the others *)
(* ===================================================================== *)

Lemma V3_handle_other (w : world) (sessions : store) user other message :
  other <> user ->
  (ServerV3.handleUserMessage w sessions user message).1 !! other =
    sessions !! other.
Proof.
  intros Hne. unfold ServerV3.handleUserMessage.
  destruct (tokens w); simpl; [|done].
  destruct (ServerV3.advance _ _ _) as [s r]; simpl.
  by rewrite lookup_insert_ne.
Qed.

Lemma V2_handle_other (w : world) (sessions : store) user other message :
  other <> user ->
  (SmsV2.handleUserMessage w sessions user message).1 !! other =
    sessions !! other.
Proof.
  intros Hne. unfold SmsV2.handleUserMessage.
  destruct (tokens w); simpl; [|done].
  destruct (SmsV2.advance _ _ _) as [s r]; simpl.
  by rewrite lookup_insert_ne.
Qed.

Lemma Lazy_handle_other (w : world) (sessions : store) user other message :
  other <> user ->
  (SmsLazy.handleUserMessage w sessions user message).1 !! other =
    sessions !! other.
Proof.
  intros Hne. unfold SmsLazy.handleUserMessage.
  destruct (SmsLazy.advance _ _ _) as [s r]; simpl.
  by rewrite lookup_insert_ne.
Qed.

Lemma Webhook_sms_other (w : world) (sessions : store) from other Body :
  other <> normalizePhone (DEFAULT_COUNTRY w) from ->
  (SmsWebhook.incomingSms w sessions from Body).1 !! other = sessions !! other.
Proof.
  intros Hne. unfold SmsWebhook.incomingSms.
  destruct from as [|c from]; [done|].
  destruct (SmsWebhook.advance _ _ _) as [[s r]|]; [|done].
  destruct (sendSms w _ r); simpl; by rewrite lookup_insert_ne.
Qed.

Lemma Mail_sms_other (sendEmail : option value -> text -> text -> bool)
    (w : world) (sessions : store) from other Body :
  other <> normalizePhone (DEFAULT_COUNTRY w) from ->
  (SmsMail.incomingSms sendEmail w sessions from Body).1 !! other =
    sessions !! other.
Proof.
  intros Hne. unfold SmsMail.incomingSms.
  destruct from as [|c from]; [done|].
  destruct (SmsMail.advance _ _ _ _) as [[[s r] ev]|]; [|done].
  destruct (sendSms w _ r); simpl; by rewrite lookup_insert_ne.
Qed.

(** X1.  A turn changes at most the session of the user who wrote: in the
    three [handleUserMessage] the session of every other key is as
    before, and so is, in the two SMS routes, the session of every key
    but the normalised number of the sender. *)
Theorem other_sessions_untouched (w : world) (sessions : store)
    (other sender message : text) :
  (other <> sender ->
   (ServerV3.handleUserMessage w sessions sender message).1 !! other =
     sessions !! other /\
   (SmsV2.handleUserMessage w sessions sender message).1 !! other =
     sessions !! other /\
   (SmsLazy.handleUserMessage w sessions sender message).1 !! other =
     sessions !! other) /\
  (other <> normalizePhone (DEFAULT_COUNTRY w) sender ->
   (SmsWebhook.incomingSms w sessions sender message).1 !! other =
     sessions !! other /\
   forall sendEmail,
     (SmsMail.incomingSms sendEmail w sessions sender message).1 !! other =
       sessions !! other).
Proof.
  split; intros Hne.
  - split; [|split].
    + by apply V3_handle_other.
    + by apply V2_handle_other.
    + by apply Lazy_handle_other.
  - split.
    + by apply Webhook_sms_other.
    + intros sendEmail. by apply Mail_sms_other.
Qed.

Lemma other_sessions_untouched_witness :
  let w := exampleWorld true (Some true) in
  let other := js "+4915112345678" in
  let sessions : store := {[ other := mkSession awaiting_time exampleData ]} in
  (ServerV3.handleUserMessage w sessions user1 (js "Termin am 08.11.2025")).1
    !! other = sessions !! other /\
  (SmsWebhook.incomingSms w sessions (js "0170 1234567") (js "Termin")).1
    !! other = sessions !! other.
Proof.
  intros w other sessions.
  destruct (other_sessions_untouched w sessions other user1
              (js "Termin am 08.11.2025")) as [H1 _].
  destruct (other_sessions_untouched w sessions other (js "0170 1234567")
              (js "Termin")) as [_ H2].
  split.
  - apply H1. vm_compute. intros H; discriminate H.
  - apply H2. vm_compute. intros H; discriminate H.
Defined.

(* ===================================================================== *)
(** ** The stage [start] *)
(* ===================================================================== *)









(** *** The other handlers keep [start] while the model answers *)

Lemma V2_advance_start w s message :
  stage s <> start -> stage (SmsV2.advance w s message).1 <> start.
Proof.
  intros Hs. unfold SmsV2.advance, SmsV2.collect.
  destruct (stage s) eqn:Hst; try done;
    repeat case_match; simplify_eq; simpl; rewrite ?Hst; try discriminate.
  all: unfold SmsV2.book, ServerV3.firstMissing;
    repeat case_match; simpl; rewrite ?Hst; discriminate.
Qed.

Lemma Lazy_advance_start w s message :
  stage s <> start -> stage (SmsLazy.advance w s message).1 <> start.
Proof.
  intros Hs. unfold SmsLazy.advance, SmsLazy.book.
  destruct (stage s) eqn:Hst; try done;
    repeat case_match; simplify_eq; simpl; rewrite ?Hst; discriminate.
Qed.

Lemma Webhook_advance_start w s body s' reply :
  stage s <> start ->
  SmsWebhook.advance w s body = Some (s', reply) -> stage s' <> start.
Proof.
  intros Hs. unfold SmsWebhook.advance, SmsWebhook.collect, SmsWebhook.book.
  destruct (stage s) eqn:Hst; try done;
    repeat case_match; simplify_eq; simpl; intros; simplify_eq; simpl;
    rewrite ?Hst; discriminate.
Qed.

Lemma sessionOf_not_start (sessions : store) user :
  stage (sessionOf sessions user) <> start -> is_Some (sessions !! user).
Proof.
  unfold sessionOf. destruct (sessions !! user); simpl; [eauto|done].
Qed.

Lemma V2_handle_start (w : world) (sessions : store) sender message user :
  stage (sessionOf sessions user) <> start ->
  stage (sessionOf (SmsV2.handleUserMessage w sessions sender message).1 user)
    <> start.
Proof.
  intros Hs. destruct (decide (user = sender)) as [->|Hne].
  - unfold SmsV2.handleUserMessage. destruct (tokens w); simpl; [|done].
    pose proof (V2_advance_start w _ message Hs) as H.
    destruct (SmsV2.advance _ _ _) as [s1 r]; simpl in *.
    by rewrite sessionOf_insert.
  - unfold sessionOf. by rewrite V2_handle_other.
Qed.

Lemma Lazy_handle_start (w : world) (sessions : store) sender message user :
  stage (sessionOf sessions user) <> start ->
  stage (sessionOf (SmsLazy.handleUserMessage w sessions sender message).1 user)
    <> start.
Proof.
  intros Hs. destruct (decide (user = sender)) as [->|Hne].
  - unfold SmsLazy.handleUserMessage.
    pose proof (Lazy_advance_start w _ message Hs) as H.
    destruct (SmsLazy.advance _ _ _) as [s1 r]; simpl in *.
    by rewrite sessionOf_insert.
  - unfold sessionOf. by rewrite Lazy_handle_other.
Qed.

Lemma Webhook_sms_start (w : world) (sessions : store) from Body phone :
  stage (sessionOf sessions phone) <> start ->
  stage (sessionOf (SmsWebhook.incomingSms w sessions from Body).1 phone)
    <> start.
Proof.
  intros Hs.
  destruct (decide (phone = normalizePhone (DEFAULT_COUNTRY w) from))
    as [->|Hne].
  - unfold SmsWebhook.incomingSms. destruct from as [|c from]; [done|].
    destruct (SmsWebhook.advance _ _ _) as [[s1 r]|] eqn:E; [|done].
    pose proof (Webhook_advance_start _ _ _ _ _ Hs E) as H.
    destruct (sendSms w _ r); simpl; by rewrite sessionOf_insert.
  - unfold sessionOf. by rewrite Webhook_sms_other.
Qed.

(** X3.  No message takes a conversation back to [start]: a session that
    has left the stage [start] is never in it again, whatever the users
    send afterwards, in [handleUserMessage] of part_002 and of the second
    server of part_003 and in the SMS route of part_001. *)
Theorem start_is_not_reentered (requests : list (world * text * text))
    (sessions : store) (user : text) :
  stage (sessionOf sessions user) <> start ->
  stage (sessionOf (serve SmsV2.handleUserMessage sessions requests) user)
    <> start /\
  stage (sessionOf (serve SmsLazy.handleUserMessage sessions requests) user)
    <> start /\
  stage (sessionOf (serve SmsWebhook.incomingSms sessions requests) user)
    <> start.
Proof.
  intros Hs. split; [|split]; revert sessions Hs.
  - induction requests as [|[[w sender] message] rest IH]; intros sessions Hs;
      simpl; [done|].
    apply IH. by apply V2_handle_start.
  - induction requests as [|[[w sender] message] rest IH]; intros sessions Hs;
      simpl; [done|].
    apply IH. by apply Lazy_handle_start.
  - induction requests as [|[[w sender] message] rest IH]; intros sessions Hs;
      simpl; [done|].
    apply IH. by apply Webhook_sms_start.
Qed.

Lemma start_is_not_reentered_witness :
  let w := exampleWorld true (Some false) in
  let sessions : store := {[ user1 := mkSession awaiting_email exampleData ]} in
  let requests := [(w, user1, js "a@b.com"); (w, user1, js "start");
                   (w, user1, js "Termin")] in
  stage (sessionOf (serve SmsLazy.handleUserMessage sessions requests) user1)
    <> start.
Proof.
  intros w sessions requests.
  refine (proj1 (proj2 (start_is_not_reentered requests sessions user1 _))).
  vm_compute. intros H; discriminate H.
Defined.

(* ===================================================================== *)
(** ** The stage [completed] is only reached through the calendar *)
(* ===================================================================== *)

Lemma V3_collect_not_completed cleaned lower s :
  stage s <> completed ->
  stage (ServerV3.collect cleaned lower s).1 <> completed.
Proof.
  intros Hs. unfold ServerV3.collect.
  destruct (stage s) eqn:Hst; try done;
    repeat case_match; simpl; rewrite ?Hst; try discriminate.
  all: unfold storeMatch; repeat case_match; simpl; rewrite ?Hst; discriminate.
Qed.

Lemma V3_book_completed w s s' reply :
  ServerV3.book w s = (s', reply) -> stage s' = completed ->
  stage s <> completed ->
  s' = setStage completed s /\ allPresent s /\
  exists ev,
    booked w ServerV3.summary
      (ServerV3.startEnd w (data s !! "date") (data s !! "time")
         (data s !! "duration")) (data s !! "email") ev /\
    reply = ServerV3.confirmation (data s !! "date") (data s !! "time")
              (data s !! "email")
              (orElse (hangoutLink ev)
                 (orElse (entryPointUri ev) (js "kein Link verfügbar"))).
Proof.
  unfold ServerV3.book.
  destruct (negb (truthy (data s !! "date")) || negb (truthy (data s !! "time"))
            || negb (truthy (data s !! "duration"))
            || negb (truthy (data s !! "email"))) eqn:Hm.
  { intros [= <- <-]. unfold ServerV3.firstMissing.
    repeat case_match; simpl; discriminate. }
  destruct (ServerV3.startEnd _ _ _ _) as [[a b]|] eqn:Hse;
    [|intros [= <- <-]; simpl; discriminate].
  destruct (isSlotFree w a b) as [[]|] eqn:Hf;
    [|intros [= <- <-]; simpl; discriminate..].
  destruct (createEvent w _ a b _) as [ev|] eqn:Hev;
    [|intros [= <- <-]; simpl; discriminate].
  intros [= <- <-] _ _. split; [done|]. split.
  - apply allPresent_fields.
    destruct (truthy (data s !! "date")), (truthy (data s !! "time")),
      (truthy (data s !! "duration")), (truthy (data s !! "email"));
      simpl in Hm; try discriminate Hm; done.
  - exists ev. split; [|done]. exists a, b. done.
Qed.

Lemma V3_advance_completed_inv w s message s' reply :
  ServerV3.advance w s message = (s', reply) ->
  stage s <> completed -> stage s' = completed ->
  allPresent s' /\
  exists ev,
    booked w ServerV3.summary
      (ServerV3.startEnd w (data s' !! "date") (data s' !! "time")
         (data s' !! "duration")) (data s' !! "email") ev /\
    reply = ServerV3.confirmation (data s' !! "date") (data s' !! "time")
              (data s' !! "email")
              (orElse (hangoutLink ev)
                 (orElse (entryPointUri ev) (js "kein Link verfügbar"))).
Proof.
  unfold ServerV3.advance. intros H Hs Hs'.
  pose proof (V3_collect_not_completed (ServerV3.cleanedText message)
    (toLowerCase (ServerV3.cleanedText message)) s Hs) as Hc.
  destruct (ServerV3.collect _ _ s) as [s1 r1]; simpl in *.
  case_bool_decide as Hcr.
  - destruct (V3_book_completed _ _ _ _ H Hs' Hc) as (-> & Hp & ev & Hb & ->).
    split; [|by exists ev].
    apply allPresent_fields. apply allPresent_fields in Hp. done.
  - case_bool_decide; simplify_eq; done.
Qed.

Lemma Lazy_advance_completed_inv w s message s' reply :
  SmsLazy.advance w s message = (s', reply) ->
  stage s <> completed -> stage s' = completed ->
  tokens w = true /\
  exists ev,
    booked w SmsLazy.summary
      (SmsLazy.startEnd w (data s' !! "date") (data s' !! "time")
         (data s' !! "duration")) (data s' !! "email") ev /\
    reply = SmsLazy.confirmation (data s' !! "date") (data s' !! "time")
              (data s' !! "email")
              (orElse (hangoutLink ev)
                 (orElse (entryPointUri ev) SmsLazy.noLink)).
Proof.
  unfold SmsLazy.advance. intros H Hs Hs'.
  destruct (stage s) eqn:Hst; try done.
  1-5: repeat case_match; simplify_eq; simpl in *; congruence.
  destruct (tokens w) eqn:Ht; simpl in H; [|simplify_eq; congruence].
  split; [done|]. unfold SmsLazy.book in H.
  destruct (SmsLazy.startEnd _ _ _ _) as [[a b]|] eqn:Hse;
    [|simplify_eq; congruence].
  destruct (isSlotFree w a b) as [[]|] eqn:Hf;
    [|simplify_eq; simpl in *; congruence..].
  destruct (createEvent w _ a b _) as [ev|] eqn:Hev;
    [|simplify_eq; congruence].
  simplify_eq. simpl. exists ev. split; [|done]. exists a, b. done.
Qed.

(** X4.  A conversation is marked [completed] only by a booking: when a
    turn of [handleUserMessage] (src/backend/serverv3.js, second server of
    part_003) takes a session that was not [completed] to [completed],
    the token was loaded, the calendar answered that the slot is free and
    created the event in that turn, and the reply is the confirmation
    with the link of that event; in serverv3.js all four fields are
    present. *)
Theorem completed_only_when_booked (w : world) (sessions : store)
    (user message : text) :
  stage (sessionOf sessions user) <> completed ->
  (let r := ServerV3.handleUserMessage w sessions user message in
   let s' := sessionOf r.1 user in
   stage s' = completed ->
   tokens w = true /\ allPresent s' /\
   exists ev,
     booked w ServerV3.summary
       (ServerV3.startEnd w (data s' !! "date") (data s' !! "time")
          (data s' !! "duration")) (data s' !! "email") ev /\
     r.2 = ServerV3.confirmation (data s' !! "date") (data s' !! "time")
             (data s' !! "email")
             (orElse (hangoutLink ev)
                (orElse (entryPointUri ev) (js "kein Link verfügbar")))) /\
  (let r := SmsLazy.handleUserMessage w sessions user message in
   let s' := sessionOf r.1 user in
   stage s' = completed ->
   tokens w = true /\
   exists ev,
     booked w SmsLazy.summary
       (SmsLazy.startEnd w (data s' !! "date") (data s' !! "time")
          (data s' !! "duration")) (data s' !! "email") ev /\
     r.2 = SmsLazy.confirmation (data s' !! "date") (data s' !! "time")
             (data s' !! "email")
             (orElse (hangoutLink ev)
                (orElse (entryPointUri ev) SmsLazy.noLink))).
Proof.
  intros Hs. split.
  - unfold ServerV3.handleUserMessage.
    destruct (tokens w) eqn:Ht; simpl; [|done].
    destruct (ServerV3.advance _ _ _) as [s1 r1] eqn:E; simpl.
    rewrite sessionOf_insert. intros Hs1. split; [done|].
    by apply (V3_advance_completed_inv _ _ _ _ _ E).
  - unfold SmsLazy.handleUserMessage.
    destruct (SmsLazy.advance _ _ _) as [s1 r1] eqn:E; simpl.
    rewrite sessionOf_insert. intros Hs1.
    by apply (Lazy_advance_completed_inv _ _ _ _ _ E).
Qed.

Lemma completed_only_when_booked_witness :
  let w := exampleWorld true (Some true) in
  let sessions : store := {[ user1 := mkSession creating exampleData ]} in
  tokens w = true /\ allPresent (mkSession completed exampleData).
Proof.
  intros w sessions.
  destruct (completed_only_when_booked w sessions user1 (js "ok")) as [H _].
  { vm_compute. intros E; discriminate E. }
  destruct H as (Ht & Hp & _); [vm_compute; reflexivity|].
  split; [exact Ht|exact Hp].
Defined.

(* ===================================================================== *)
(** ** The route that mails the confirmation (part_003, first server) *)
(* ===================================================================== *)

Section Mail.

Variable sendEmail : option value -> text -> text -> bool.

Lemma Mail_collect_not_completed w body lower s s' reply :
  SmsMail.collect w body lower s = Some (s', reply) ->
  stage s <> completed -> stage s' <> completed.
Proof.
  unfold SmsMail.collect. intros H Hs.
  destruct (stage s) eqn:Hst; try done;
    repeat case_match; simplify_eq; simpl; rewrite ?Hst; discriminate.
Qed.

Lemma Mail_advance_creating w s body :
  stage s = creating ->
  SmsMail.advance sendEmail w s body = Some (SmsMail.book sendEmail w s).
Proof.
  intros Hs. unfold SmsMail.advance, SmsMail.collect. rewrite Hs.
  by rewrite bool_decide_eq_true_2.
Qed.

Lemma Mail_book_mail_fails w s ev :
  tokens w = true ->
  booked w SmsMail.summary
    (SmsWebhook.startEnd w (data s !! "date") (data s !! "time")
       (data s !! "duration")) (data s !! "email") ev ->
  sendEmail (data s !! "email") SmsMail.mailSubject
    (SmsMail.mailText (data s !! "date") (data s !! "time")
       (orElse (hangoutLink ev) (orElse (entryPointUri ev) SmsMail.noLink)))
    = false ->
  SmsMail.book sendEmail w s = (s, SmsMail.createFailed, Some ev).
Proof.
  intros Ht (a & b & Hse & Hf & Hev) Hm. unfold SmsMail.book.
  by rewrite Ht, Hse, Hf, Hev, Hm.
Qed.

Lemma Mail_book_completed w s s' reply ev :
  SmsMail.book sendEmail w s = (s', reply, ev) ->
  stage s <> completed -> stage s' = completed ->
  tokens w = true /\
  exists e,
    ev = Some e /\
    booked w SmsMail.summary
      (SmsWebhook.startEnd w (data s' !! "date") (data s' !! "time")
         (data s' !! "duration")) (data s' !! "email") e /\
    sendEmail (data s' !! "email") SmsMail.mailSubject
      (SmsMail.mailText (data s' !! "date") (data s' !! "time")
         (orElse (hangoutLink e) (orElse (entryPointUri e) SmsMail.noLink)))
      = true.
Proof.
  unfold SmsMail.book. intros H Hs Hs'.
  destruct (tokens w) eqn:Ht; simpl in H; [|simplify_eq; congruence].
  split; [done|].
  destruct (SmsWebhook.startEnd _ _ _ _) as [[a b]|] eqn:Hse;
    [|simplify_eq; congruence].
  destruct (isSlotFree w a b) as [[]|] eqn:Hf;
    [|simplify_eq; simpl in *; congruence..].
  destruct (createEvent w _ a b _) as [e|] eqn:Hev;
    [|simplify_eq; congruence].
  destruct (sendEmail _ _ _) eqn:Hm; [|simplify_eq; congruence].
  simplify_eq. simpl. exists e. split; [done|]. split; [|done].
  exists a, b. done.
Qed.

End Mail.

(** X5.  In the SMS route of the first server of part_003 a session
    becomes [completed] only when, in that request, the token was loaded,
    the calendar answered free and created the event, and [sendEmail]
    went through; the event the request reports is that event. *)
Theorem Mail_completed_means_mailed
    (sendEmail : option value -> text -> text -> bool)
    (w : world) (sessions : store) (from Body : text) :
  let phone := normalizePhone (DEFAULT_COUNTRY w) from in
  let r := SmsMail.incomingSms sendEmail w sessions from Body in
  let s' := sessionOf r.1 phone in
  stage (sessionOf sessions phone) <> completed ->
  stage s' = completed ->
  tokens w = true /\
  exists ev,
    SmsMail.created r.2 = Some ev /\
    booked w SmsMail.summary
      (SmsWebhook.startEnd w (data s' !! "date") (data s' !! "time")
         (data s' !! "duration")) (data s' !! "email") ev /\
    sendEmail (data s' !! "email") SmsMail.mailSubject
      (SmsMail.mailText (data s' !! "date") (data s' !! "time")
         (orElse (hangoutLink ev) (orElse (entryPointUri ev) SmsMail.noLink)))
      = true.
Proof.
  intros phone r s' Hs. subst s' r. unfold SmsMail.incomingSms.
  destruct from as [|c from]; [done|]. fold phone.
  destruct (SmsMail.advance _ _ _ _) as [[[s1 r1] ev1]|] eqn:E; [|done].
  assert ((<[phone := s1]> sessions,
           if sendSms w phone r1
           then SmsMail.Effect (SmsWebhook.Outcome (Some r1) 200) ev1
           else SmsMail.Effect (SmsWebhook.Outcome None 500) ev1) =
          (if sendSms w phone r1
           then (<[phone := s1]> sessions,
                 SmsMail.Effect (SmsWebhook.Outcome (Some r1) 200) ev1)
           else (<[phone := s1]> sessions,
                 SmsMail.Effect (SmsWebhook.Outcome None 500) ev1))) as Hif.
  { by destruct (sendSms w phone r1). }
  rewrite <- Hif. simpl. rewrite sessionOf_insert. intros Hs1.
  unfold SmsMail.advance in E.
  destruct (SmsMail.collect _ _ _ _) as [[s0 r0]|] eqn:Ec; [|done].
  pose proof (Mail_collect_not_completed _ _ _ _ _ _ Ec Hs) as Hc.
  case_bool_decide as Hcr; [|simplify_eq; done].
  injection E as E.
  destruct (Mail_book_completed sendEmail _ _ _ _ _ E Hc Hs1)
    as (Ht & e & -> & Hb & Hm).
  split; [done|]. exists e. split; [|done].
  by destruct (sendSms w phone r1).
Qed.

Lemma Mail_completed_means_mailed_witness :
  let w := exampleWorld true (Some true) in
  let sessions : store := {[ user1 := mkSession creating exampleData ]} in
  tokens w = true.
Proof.
  intros w sessions.
  refine (proj1 (Mail_completed_means_mailed (fun _ _ _ => true) w sessions
                   user1 (js "ok") _ _)).
  - vm_compute. intros E; discriminate E.
  - vm_compute. reflexivity.
Defined.

(** X6.  When the calendar has created the event but [sendEmail] throws,
    the route of the first server of part_003 answers that the booking
    failed and leaves the session in [creating]: the request has created
    an event, and the next message of the same number, handled in the
    same world, creates an event again. *)
Theorem Mail_failure_after_event
    (sendEmail : option value -> text -> text -> bool)
    (w : world) (sessions : store) (from Body Body' : text) (s : Session)
    (ev : event) :
  let phone := normalizePhone (DEFAULT_COUNTRY w) from in
  from <> [] ->
  sessions !! phone = Some s -> stage s = creating -> tokens w = true ->
  booked w SmsMail.summary
    (SmsWebhook.startEnd w (data s !! "date") (data s !! "time")
       (data s !! "duration")) (data s !! "email") ev ->
  sendEmail (data s !! "email") SmsMail.mailSubject
    (SmsMail.mailText (data s !! "date") (data s !! "time")
       (orElse (hangoutLink ev) (orElse (entryPointUri ev) SmsMail.noLink)))
    = false ->
  let first := SmsMail.incomingSms sendEmail w sessions from Body in
  let second := SmsMail.incomingSms sendEmail w first.1 from Body' in
  first.1 = sessions /\
  SmsMail.created first.2 = Some ev /\
  SmsWebhook.sent (SmsMail.answer first.2) =
    (if sendSms w phone SmsMail.createFailed
     then Some SmsMail.createFailed else None) /\
  second = first.
Proof.
  intros phone Hfrom Hlook Hst Ht Hb Hm.
  assert (forall B, SmsMail.incomingSms sendEmail w sessions from B =
    (sessions,
     if sendSms w phone SmsMail.createFailed
     then SmsMail.Effect (SmsWebhook.Outcome (Some SmsMail.createFailed) 200)
            (Some ev)
     else SmsMail.Effect (SmsWebhook.Outcome None 500) (Some ev))) as Hreq.
  { intros B. unfold SmsMail.incomingSms.
    destruct from as [|c from]; [done|]. fold phone.
    rewrite (sessionOf_lookup _ _ _ Hlook).
    rewrite (Mail_advance_creating sendEmail _ _ _ Hst).
    rewrite (Mail_book_mail_fails sendEmail _ _ _ Ht Hb Hm).
    rewrite (insert_id _ _ _ Hlook).
    by destruct (sendSms w phone SmsMail.createFailed). }
  simpl. rewrite (Hreq Body). simpl. rewrite (Hreq Body').
  split; [done|].
  destruct (sendSms w phone SmsMail.createFailed); done.
Qed.

Lemma Mail_failure_after_event_witness :
  let w := exampleWorld true (Some true) in
  let sessions : store := {[ user1 := mkSession creating exampleData ]} in
  let first :=
    SmsMail.incomingSms (fun _ _ _ => false) w sessions user1 (js "ok") in
  first.1 = sessions /\
  SmsMail.created first.2 =
    Some (Event (Some (js "https://meet.google.com/abc-defg-hij")) None).
Proof.
  intros w sessions first.
  destruct (Mail_failure_after_event (fun _ _ _ => false) w sessions user1
              (js "ok") (js "ok") (mkSession creating exampleData)
              (Event (Some (js "https://meet.google.com/abc-defg-hij")) None))
    as (H1 & H2 & _).
  - vm_compute. intros E; discriminate E.
  - vm_compute. reflexivity.
  - reflexivity.
  - reflexivity.
  - eexists _, _. split; [vm_compute; reflexivity|]. split; reflexivity.
  - reflexivity.
  - split; [exact H1|exact H2].
Defined.

(* ===================================================================== *)
(** ** The lead webhook of part_001 *)
(* ===================================================================== *)

Lemma orValue_chain a b c :
  LeadWebhook.orValue a
    (LeadWebhook.orValue b (LeadWebhook.orValue c (VStr []))) =
  firstTruthy [a; b; c].
Proof.
  unfold firstTruthy, LeadWebhook.orValue. simpl.
  destruct a as [va|], b as [vb|], c as [vc|]; simpl;
    repeat (case_match; simplify_eq; simpl in * ); try done.
Qed.

Lemma orValue_one a :
  LeadWebhook.orValue a (VStr []) = firstTruthy [a].
Proof.
  unfold firstTruthy, LeadWebhook.orValue. simpl.
  destruct a as [va|]; simpl; repeat (case_match; simplify_eq); done.
Qed.

Lemma firstTruthy_falsy candidates :
  truthy (Some (firstTruthy candidates)) = false <->
  Forall (fun v => truthy v = false) candidates.
Proof.
  unfold firstTruthy. induction candidates as [|v rest IH]; simpl.
  { split; [constructor|done]. }
  destruct (truthy v) eqn:Hv.
  - split.
    + destruct v as [x|]; [|discriminate Hv]. intros H.
      simpl in *. congruence.
    + intros H. inversion H as [|? ? Hv' ?]; subst.
      simpl in *. congruence.
  - rewrite IH. split; [by constructor|]. by inversion 1.
Qed.

(** X7.  A lead without a number is refused and changes nothing: the
    route answers 400, with the sessions as they were and no SMS, exactly
    when none of [phone], [phone_number] and [mobile] holds a truthy
    value; a number given as a JSON number instead of a string ends in
    the [catch] (500), again with nothing stored. *)
Theorem lead_without_phone (w : world) (sessions : store)
    (body : gmap string value) :
  let r := LeadWebhook.leadWebhook w sessions body in
  (SmsWebhook.status r.2 = 400 <->
   Forall (fun v => truthy v = false) (phoneFields body)) /\
  (SmsWebhook.status r.2 = 400 ->
   r = (sessions, SmsWebhook.Outcome None 400)) /\
  (forall n, firstTruthy (phoneFields body) = VNum n -> n <> 0%N ->
   r = (sessions, SmsWebhook.Outcome None 500)).
Proof.
  intros r. subst r. unfold LeadWebhook.leadWebhook.
  rewrite !orValue_chain, !orValue_one. fold (phoneFields body).
  pose proof (firstTruthy_falsy (phoneFields body)) as Hf.
  destruct (truthy (Some (firstTruthy (phoneFields body)))) eqn:Ht; simpl.
  - destruct (firstTruthy (phoneFields body)) as [raw|n] eqn:Hp.
    + split; [|split].
      * split; [|intros H; apply Hf in H; discriminate H].
        destruct (sendSms w _ _); simpl; discriminate.
      * destruct (sendSms w _ _); simpl; discriminate.
      * discriminate.
    + split; [|split].
      * split; [simpl; discriminate|intros H; apply Hf in H; discriminate H].
      * simpl; discriminate.
      * done.
  - split; [|split].
    + split; [intros _; by apply Hf|done].
    + done.
    + intros n Hn Hz. rewrite Hn in Ht. simpl in Ht.
      destruct (N.eqb_spec n 0); [done|discriminate Ht].
Qed.

Lemma lead_without_phone_witness :
  let w := exampleWorld true (Some true) in
  let sessions : store := {[ user1 := mkSession awaiting_time exampleData ]} in
  let body : gmap string value :=
    {[ "firstName" := VStr (js "Anna"); "phone" := VStr [] ]} in
  LeadWebhook.leadWebhook w sessions body =
    (sessions, SmsWebhook.Outcome None 400).
Proof.
  intros w sessions body.
  apply (proj1 (proj2 (lead_without_phone w sessions body))).
  vm_compute. reflexivity.
Defined.

Lemma lead_stores_session (w : world) (sessions : store)
    (body : gmap string value) (raw : text) :
  firstTruthy (phoneFields body) = VStr raw -> raw <> [] ->
  (LeadWebhook.leadWebhook w sessions body).1 =
    <[normalizePhone (DEFAULT_COUNTRY w) raw :=
        mkSession start
          (LeadWebhook.leadData
             (firstTruthy [body !! "firstName"; body !! "first_name";
                           body !! "firstname"])
             (firstTruthy [body !! "lastName"; body !! "last_name";
                           body !! "lastname"])
             (firstTruthy [body !! "email"])
             (firstTruthy [body !! "company"]))]> sessions.
Proof.
  intros Hp Hraw. unfold LeadWebhook.leadWebhook.
  rewrite !orValue_chain, !orValue_one. fold (phoneFields body).
  rewrite Hp.
  assert (truthy (Some (VStr raw)) = true) as ->.
  { destruct raw; done. }
  simpl. by destruct (sendSms w _ _).
Qed.

(** X8.  A lead with a number starts the conversation of that number
    afresh: the session stored under the normalised number is in stage
    [start] and holds exactly the fields [firstName], [lastName], [email]
    and [company] of the lead, so whatever an earlier conversation of
    that number had collected is gone; the session is stored whether or
    not the welcome SMS goes through, and the status is 200 exactly when
    it does. *)
Theorem lead_resets_session (w : world) (sessions : store)
    (body : gmap string value) (raw : text) :
  firstTruthy (phoneFields body) = VStr raw -> raw <> [] ->
  let phone := normalizePhone (DEFAULT_COUNTRY w) raw in
  let r := LeadWebhook.leadWebhook w sessions body in
  let firstName :=
    firstTruthy [body !! "firstName"; body !! "first_name"; body !! "firstname"] in
  let lastName :=
    firstTruthy [body !! "lastName"; body !! "last_name"; body !! "lastname"] in
  exists s,
    r.1 = <[phone := s]> sessions /\
    stage s = start /\
    dom (data s) = {[ "firstName"; "lastName"; "email"; "company" ]} /\
    data s !! "firstName" = Some firstName /\
    data s !! "lastName" = Some lastName /\
    data s !! "email" = Some (firstTruthy [body !! "email"]) /\
    data s !! "company" = Some (firstTruthy [body !! "company"]) /\
    data s !! "date" = None /\
    r.2 = (if sendSms w phone (LeadWebhook.greeting w firstName lastName)
           then SmsWebhook.Outcome
                  (Some (LeadWebhook.greeting w firstName lastName)) 200
           else SmsWebhook.Outcome None 500).
Proof.
  intros Hp Hraw phone r firstName lastName. subst r.
  unfold LeadWebhook.leadWebhook.
  rewrite !orValue_chain, !orValue_one. fold (phoneFields body).
  rewrite Hp. fold phone. fold firstName. fold lastName.
  assert (truthy (Some (VStr raw)) = true) as ->.
  { destruct raw; done. }
  simpl.
  eexists (mkSession start _).
  split; [by destruct (sendSms w phone _)|].
  split; [done|].
  split.
  { simpl. unfold LeadWebhook.leadData.
    rewrite !dom_insert_L, dom_empty_L. set_solver. }
  repeat split; try done.
  by destruct (sendSms w phone _).
Qed.

Lemma lead_resets_session_witness :
  let w := exampleWorld true (Some true) in
  let sessions : store := {[ user1 := mkSession awaiting_time exampleData ]} in
  let body : gmap string value :=
    {[ "first_name" := VStr (js "Anna"); "mobile" := VStr user1 ]} in
  exists s,
    (LeadWebhook.leadWebhook w sessions body).1 = <[user1 := s]> sessions /\
    stage s = start /\
    data s !! "date" = None.
Proof.
  intros w sessions body.
  destruct (lead_resets_session w sessions body user1)
    as (s & H1 & H2 & _ & _ & _ & _ & _ & H3 & _).
  - vm_compute. reflexivity.
  - vm_compute. intros E; discriminate E.
  - exists s. split; [exact H1|]. split; [exact H2|exact H3].
Defined.

(* ===================================================================== *)
(** ** A lead that left an address is not asked for it *)
(* ===================================================================== *)

Lemma Webhook_collect_hasEmail w s body lower s' reply email :
  truthy (Some email) = true -> hasEmail email s ->
  SmsWebhook.collect w body lower s = Some (s', reply) -> hasEmail email s'.
Proof.
  intros Ht [He Hs]. unfold SmsWebhook.collect.
  destruct (stage s) eqn:Hst; try done.
  - repeat case_match; intros; simplify_eq; split; simpl; rewrite ?Hst; done.
  - repeat case_match; intros; simplify_eq; split; simpl; rewrite ?Hst;
      try done.
    by rewrite lookup_insert_ne.
  - repeat case_match; intros; simplify_eq; split; simpl; rewrite ?Hst;
      try done.
    by rewrite lookup_insert_ne.
  - destruct (matchOf durationRe _) as [m|]; simpl.
    + rewrite lookup_insert_ne by done. rewrite He, Ht. simpl.
      intros; simplify_eq. split; simpl; [|done].
      by rewrite lookup_insert_ne.
    + intros; simplify_eq. split; [done|by rewrite Hst].
  - intros; simplify_eq. split; [done|by rewrite Hst].
  - intros; simplify_eq. split; [done|by rewrite Hst].
Qed.

Lemma Webhook_book_hasEmail w s email :
  stage s = creating -> data s !! "email" = Some email ->
  hasEmail email (SmsWebhook.book w s).1.
Proof.
  intros Hst He. unfold SmsWebhook.book.
  repeat case_match; split; simpl; rewrite ?Hst; done.
Qed.

Lemma Webhook_advance_hasEmail w s body s' reply email :
  truthy (Some email) = true -> hasEmail email s ->
  SmsWebhook.advance w s body = Some (s', reply) -> hasEmail email s'.
Proof.
  intros Ht H0. unfold SmsWebhook.advance.
  destruct (SmsWebhook.collect _ _ _ _) as [[s1 r1]|] eqn:E; [|done].
  pose proof (Webhook_collect_hasEmail _ _ _ _ _ _ _ Ht H0 E) as [He1 Hs1].
  case_bool_decide as Hc.
  - intros [= H]. pose proof (Webhook_book_hasEmail w s1 email Hc He1) as Hb.
    by rewrite H in Hb.
  - intros [= <- <-]. by split.
Qed.

Lemma Webhook_sms_hasEmail (w : world) (sessions : store) from Body phone
    email s :
  truthy (Some email) = true ->
  sessions !! phone = Some s -> hasEmail email s ->
  exists s', (SmsWebhook.incomingSms w sessions from Body).1 !! phone = Some s' /\
             hasEmail email s'.
Proof.
  intros Ht Hl He.
  destruct (decide (phone = normalizePhone (DEFAULT_COUNTRY w) from))
    as [->|Hne].
  - unfold SmsWebhook.incomingSms. destruct from as [|c from]; [by exists s|].
    rewrite (sessionOf_lookup _ _ _ Hl).
    destruct (SmsWebhook.advance _ _ _) as [[s1 r]|] eqn:E; [|by exists s].
    exists s1. split.
    + destruct (sendSms w _ r); simpl; by rewrite lookup_insert_eq.
    + by apply (Webhook_advance_hasEmail _ _ _ _ _ _ Ht He E).
  - exists s. by rewrite Webhook_sms_other.
Qed.

(** X9.  After a lead that left a number and an e-mail address, the SMS
    route of part_001 never asks that number for the address: whatever
    SMS arrive afterwards, from whomever, the session of the number keeps
    the address of the lead and is never in stage [awaiting_email]. *)
Theorem lead_email_is_never_asked (w : world) (sessions : store)
    (body : gmap string value) (raw : text) (email : value)
    (requests : list (world * text * text)) :
  firstTruthy (phoneFields body) = VStr raw -> raw <> [] ->
  body !! "email" = Some email -> truthy (Some email) = true ->
  let phone := normalizePhone (DEFAULT_COUNTRY w) raw in
  let after :=
    serve SmsWebhook.incomingSms
      (LeadWebhook.leadWebhook w sessions body).1 requests in
  exists s,
    after !! phone = Some s /\
    data s !! "email" = Some email /\
    stage s <> awaiting_email.
Proof.
  intros Hp Hraw He Ht phone after. subst after.
  rewrite (lead_stores_session w sessions body raw Hp Hraw). fold phone.
  set (s0 := mkSession start _).
  assert (hasEmail email s0) as H0.
  { split; [|discriminate]. subst s0. unfold LeadWebhook.leadData. simpl.
    rewrite lookup_insert_ne by done. rewrite lookup_insert_eq.
    unfold firstTruthy. simpl. rewrite He, Ht. done. }
  assert (<[phone := s0]> sessions !! phone = Some s0) as Hl
    by apply lookup_insert_eq.
  clearbody s0. revert H0 Hl.
  generalize (<[phone := s0]> sessions). revert s0.
  induction requests as [|[[w' from] Body] rest IH]; intros s0 m H0 Hl; simpl.
  - exists s0. destruct H0. done.
  - destruct (Webhook_sms_hasEmail w' m from Body phone email s0 Ht Hl H0)
      as (s1 & Hl1 & H1).
    by apply (IH s1).
Qed.

Lemma lead_email_is_never_asked_witness :
  let w := exampleWorld true (Some true) in
  let body : gmap string value :=
    {[ "phone" := VStr user1; "email" := VStr (js "Anna@B.com") ]} in
  let requests := [(w, user1, js "Termin"); (w, user1, js "08.11.2025");
                   (w, user1, js "10:00"); (w, user1, js "30")] in
  exists s,
    serve SmsWebhook.incomingSms (LeadWebhook.leadWebhook w ∅ body).1 requests
      !! user1 = Some s /\
    data s !! "email" = Some (VStr (js "Anna@B.com")) /\
    stage s <> awaiting_email.
Proof.
  intros w body requests.
  apply (lead_email_is_never_asked w ∅ body user1 (VStr (js "Anna@B.com"))
           requests).
  - vm_compute. reflexivity.
  - vm_compute. intros E; discriminate E.
  - vm_compute. reflexivity.
  - reflexivity.
Defined.

(* ===================================================================== *)
(** ** [sendSms] normalises a normalised number *)
(* ===================================================================== *)

Lemma dropWhile_head_not p s c :
  head (dropWhile p s) = Some c -> p c = false.
Proof.
  induction s as [|x s IH]; simpl; [done|].
  destruct (p x) eqn:E; [done|]. simpl. by intros [= <-].
Qed.

Lemma dropWhile_last p s c :
  last (dropWhile p s) = Some c -> last s = Some c.
Proof.
  destruct (dropWhile_split p s) as (a & Hs & _).
  intros H. rewrite Hs at 1.
  destruct (dropWhile p s) as [|x t] eqn:E; [done|].
  rewrite last_app. by rewrite H.
Qed.

Lemma last_rev (s : text) : last (rev s) = head s.
Proof. destruct s as [|c s]; simpl; [done|]. apply last_snoc. Qed.

Lemma head_rev (s : text) : head (rev s) = last s.
Proof. rewrite <- (rev_involutive s) at 2. by rewrite last_rev. Qed.

Lemma trim_head_last s :
  (forall c, head (trim s) = Some c -> isSpace c = false) /\
  (forall c, last (trim s) = Some c -> isSpace c = false).
Proof.
  unfold trim. split; intros c.
  - rewrite head_rev. intros H. apply dropWhile_last in H.
    rewrite last_rev in H. by apply dropWhile_head_not in H.
  - rewrite last_rev. apply dropWhile_head_not.
Qed.

Lemma trim_idem s : trim (trim s) = trim s.
Proof.
  destruct (trim_head_last s) as [H1 H2]. by apply trim_id.
Qed.

Lemma trim_fixed_last s c :
  trim s = s -> last s = Some c -> isSpace c = false.
Proof.
  intros <-. apply trim_head_last.
Qed.

Lemma filter_digits_last s c :
  last (List.filter (fun c => isDigit c) s) = Some c -> isSpace c = false.
Proof.
  intros H. apply digit_not_space.
  assert (In c (List.filter (fun c => isDigit c) s)) as Hin.
  { apply last_Some in H as (l' & ->). apply in_or_app. right. by left. }
  apply filter_In in Hin. tauto.
Qed.

(** X10.  [normalizePhone] is idempotent as long as the configured country
    prefix begins with [+] and does not end in white space (as the
    default [+49]): the number the route has normalised is not changed
    when [sendSms] normalises it again.  With a prefix that lacks the
    [+] it is not: the prefix is put in front once more. *)
Theorem normalizePhone_idempotent (country phone : text) :
  (startsWith (js "+") country = true ->
   (forall c, last country = Some c -> isSpace c = false) ->
   normalizePhone country (normalizePhone country phone) =
     normalizePhone country phone) /\
  normalizePhone (js "49") (normalizePhone (js "49") (js "0170 1234567")) =
    js "494901701234567".
Proof.
  split; [|vm_compute; reflexivity].
  intros Hc Hlast.
  destruct (proj1 (startsWith_plus country) Hc) as (c' & ->).
  destruct phone as [|x phone]; [done|].
  unfold normalizePhone at 2.
  destruct (startsWith (js "+") (trim (x :: phone))) eqn:Hp.
  - destruct (proj1 (startsWith_plus _) Hp) as (t & Ht).
    rewrite Ht. unfold normalizePhone.
    rewrite <- Ht, trim_idem, Hp. done.
  - simpl app.
    set (r := List.filter (fun c => isDigit c) (trim (x :: phone))).
    unfold normalizePhone.
    assert (trim ("+"%char :: c' ++ r) = "+"%char :: c' ++ r) as ->.
    { apply trim_id.
      - simpl. intros c [= <-]. done.
      - intros c. change ("+"%char :: c' ++ r) with (("+"%char :: c') ++ r).
        rewrite last_app. destruct (last r) as [d|] eqn:Hr.
        + intros [= <-]. by apply (filter_digits_last _ _ Hr).
        + apply Hlast. }
    assert (startsWith (js "+") ("+"%char :: c' ++ r) = true) as ->
      by (apply startsWith_plus; eauto).
    by rewrite Hp.
Qed.

Lemma normalizePhone_idempotent_witness :
  normalizePhone (js "+49") (normalizePhone (js "+49") (js "0170 1234567")) =
    normalizePhone (js "+49") (js "0170 1234567").
Proof.
  apply (proj1 (normalizePhone_idempotent (js "+49") (js "0170 1234567"))).
  - reflexivity.
  - intros c. vm_compute. intros [= <-]. reflexivity.
Defined.

(* ===================================================================== *)
(** ** The keyword that opens the booking *)
(* ===================================================================== *)








(* ===================================================================== *)
(** ** The address the SMS handlers store *)
(* ===================================================================== *)












(* ===================================================================== *)
(** ** What the cleaning of src/backend/serverv3.js removes *)
(* ===================================================================== *)







(* ===================================================================== *)
(** ** An address with a filler word in it *)
(* ===================================================================== *)

Lemma rep_greedy {R} p m : forall lo post (k : text -> option R) x,
  Forall (fun c => p c = true) m -> lo <= length m ->
  (forall c, head post = Some c -> p c = false) ->
  k post = Some x ->
  rep p lo None (m ++ post) k = Some x.
Proof.
  induction m as [|c m IH]; intros lo post k x Hm Hlo Hpost Hk; simpl in *.
  - assert (lo = 0) as -> by lia.
    destruct post as [|c post]; simpl; [done|].
    by rewrite (Hpost c eq_refl).
  - apply Forall_cons in Hm as [-> Hm]. simpl.
    rewrite (IH (pred lo) post k x); [done..|lia|done|done].
Qed.

Lemma email_is_found (l tail : text) :
  Forall (fun c => notSpaceAt c = true) l ->
  run (Chr "@" · Rep notSpaceAt 1 None · Chr "." · Rep notSpaceAt 1 None)%re
    (js "@" ++ tail) Some = Some [] ->
  l <> [] ->
  matchOf emailRe (l ++ js "@" ++ tail) = Some (l ++ js "@" ++ tail).
Proof.
  intros Hl Hrun Hne. unfold matchOf. rewrite search_unfold.
  assert (exec emailRe (l ++ js "@" ++ tail) =
          Some (l ++ js "@" ++ tail, [])) as ->; [|done].
  unfold exec, emailRe. cbn [run].
  rewrite (rep_greedy notSpaceAt l 1 (js "@" ++ tail) _ []); try done.
  - simpl length. by rewrite Nat.sub_0_r, firstn_all.
  - destruct l; [done|simpl; lia].
  - intros c [= <-]. done.
Qed.

(** X14.  src/backend/serverv3.js matches the address in the cleaned
    text, so a filler word that is a part of the address is lost: for an
    address whose local part ends in [.um], with whatever text of
    characters other than letters, white space and at signs before it,
    the pattern finds the whole message when it reads the message itself,
    but the handler stores the address without the [um], a shorter text
    than the one that was sent. *)
Theorem V3_address_loses_filler (w : world) (s : Session) (l : text) :
  stage s = awaiting_email -> l <> [] ->
  Forall (fun c => isLetter c = false) l ->
  Forall (fun c => notSpaceAt c = true) l ->
  let message := l ++ js ".um@web.de" in
  let stored := l ++ js ".@web.de" in
  matchOf emailRe message = Some message /\
  data (ServerV3.advance w s message).1 !! "email" = Some (VStr stored) /\
  length stored < length message.
Proof.
  intros Hst Hne Hlet Hns message stored. split; [|split].
  - subst message.
    change (l ++ js ".um@web.de") with (l ++ js ".um" ++ js "@" ++ js "web.de").
    rewrite (app_assoc l). apply email_is_found.
    + apply Forall_app. split; [done|]. by repeat constructor.
    + vm_compute. reflexivity.
    + by destruct l.
  - assert (ServerV3.cleanedText message = stored) as Hclean.
    { unfold ServerV3.cleanedText, removeFillers. subst message stored.
      change (l ++ js ".um@web.de") with (l ++ js "." ++ js "um@web.de").
      rewrite (app_assoc l), removeFrom_block.
      2:{ apply Forall_app. split; [done|]. by repeat constructor. }
      assert (lastOr None (l ++ js ".") = Some "."%char) as ->.
      { unfold lastOr. change (js ".") with (["."%char]).
        by rewrite last_snoc. }
      assert (removeFrom 0 (Some "."%char) (js "um@web.de") = js "@web.de")
        as -> by (vm_compute; reflexivity).
      rewrite <- app_assoc. apply trim_id.
      - destruct l as [|c l]; [done|]. intros x [= <-].
        apply Forall_cons in Hns as [Hc _]. unfold notSpaceAt in Hc.
        by destruct (isSpace c).
      - intros c. rewrite last_app. simpl. intros [= <-]. done. }
    assert (matchOf emailRe stored = Some stored) as Hm.
    { subst stored.
      change (l ++ js ".@web.de") with (l ++ js "." ++ js "@" ++ js "web.de").
      rewrite (app_assoc l). apply email_is_found.
      - apply Forall_app. split; [done|]. by repeat constructor.
      - vm_compute. reflexivity.
      - by destruct l. }
    rewrite <- Hclean in Hm at 1.
    rewrite (V3_advance_email _ _ _ _ Hst Hm), V3_book_keeps. simpl.
    by rewrite lookup_insert_eq.
  - subst message stored. rewrite !length_app. simpl. lia.
Qed.

Lemma V3_address_loses_filler_witness :
  let w := exampleWorld true (Some true) in
  let s := mkSession awaiting_email (delete "email" exampleData) in
  data (ServerV3.advance w s (js "4711.um@web.de")).1 !! "email" =
    Some (VStr (js "4711.@web.de")).
Proof.
  intros w s.
  refine (proj1 (proj2 (V3_address_loses_filler w s (js "4711") _ _ _ _))).
  - reflexivity.
  - intros E; discriminate E.
  - repeat constructor.
  - repeat constructor.
Defined.

(* ===================================================================== *)
(** ** src/backend/serverv3.js never asks for the time after a date *)
(* ===================================================================== *)

Lemma V3_collect_date w s message :
  stage s = start \/ stage s = awaiting_date ->
  truthy (data s !! "date") = false ->
  let r := ServerV3.advance w s message in
  (stage r.1 = awaiting_date /\
   (r.2 = ServerV3.askDateFormat \/ r.2 = ServerV3.askDate)) \/
  (stage r.1 = awaiting_duration /\ r.2 = ServerV3.askDuration /\
   truthy (data r.1 !! "date") = true /\ truthy (data r.1 !! "time") = true /\
   Contains dateRe message).
Proof.
  intros Hs Hd. unfold ServerV3.advance.
  set (cleaned := ServerV3.cleanedText message).
  assert (let r := ServerV3.collect cleaned (toLowerCase cleaned) s in
    (stage r.1 = awaiting_date /\
     (r.2 = ServerV3.askDateFormat \/ r.2 = ServerV3.askDate)) \/
    (stage r.1 = awaiting_duration /\ r.2 = ServerV3.askDuration /\
     truthy (data r.1 !! "date") = true /\
     truthy (data r.1 !! "time") = true /\
     Contains dateRe message)) as H.
  { unfold ServerV3.collect.
    assert (forall st, stage s = st -> st = start \/ st = awaiting_date ->
      let r := (if includes (js "termin") (toLowerCase cleaned) &&
                   bool_decide (st = start)
        then (setStage awaiting_date s, ServerV3.askDateFormat)
        else
          let dateMatch := matchOf dateRe cleaned in
          let timeMatch := matchOf timeRe cleaned in
          let session := storeMatch "date" dateMatch s in
          let session := storeMatch "time" timeMatch session in
          if truthy (data session !! "date") && truthy (data session !! "time")
          then (setStage awaiting_duration session, ServerV3.askDuration)
          else if negb (truthy (data session !! "date"))
          then (setStage awaiting_date session, ServerV3.askDate)
          else if negb (truthy (data session !! "time"))
          then (setStage awaiting_time session,
                ServerV3.askTime (data session !! "date"))
          else (session, [])) in
      (stage r.1 = awaiting_date /\
       (r.2 = ServerV3.askDateFormat \/ r.2 = ServerV3.askDate)) \/
      (stage r.1 = awaiting_duration /\ r.2 = ServerV3.askDuration /\
       truthy (data r.1 !! "date") = true /\
       truthy (data r.1 !! "time") = true /\
       Contains dateRe message)) as Hgen.
    { intros st _ _.
      destruct (includes _ _ && _); simpl; [left; eauto|].
      destruct (matchOf dateRe cleaned) as [m|] eqn:Hm.
      - assert (Contains dateRe cleaned) as Hc.
        { destruct (matchOf_Some _ _ _ Hm) as (HM & pre & post & E).
          by exists pre, m, post. }
        destruct (matchOf_Contains _ _ (date_starts_with_time _ Hc))
          as [t Ht]. rewrite Ht. simpl.
        rewrite lookup_insert_ne by done. rewrite !lookup_insert_eq.
        rewrite (matchOf_truthy dateRe _ _ ltac:(simpl; lia) Hm),
          (matchOf_truthy timeRe _ _ ltac:(simpl; lia) Ht). simpl.
        right. rewrite lookup_insert_ne by done. rewrite !lookup_insert_eq.
        rewrite (matchOf_truthy dateRe _ _ ltac:(simpl; lia) Hm),
          (matchOf_truthy timeRe _ _ ltac:(simpl; lia) Ht).
        repeat split; try done. by apply Contains_date_cleaned.
      - simpl. rewrite storeMatch_time_date, Hd. simpl. left. eauto. }
    destruct Hs as [Hs|Hs]; rewrite Hs; apply (Hgen _ Hs); eauto. }
  destruct (ServerV3.collect _ _ s) as [s1 r1]; simpl in *.
  destruct H as [[H1 H2]|[H1 H2]]; rewrite H1; simpl; eauto.
Qed.

(** X15.  src/backend/serverv3.js never asks for the time after a date: a
    turn of a session in [start] or [awaiting_date] (which holds no date,
    as every such session the server stores) ends in [awaiting_date] or
    in [awaiting_duration], never in [awaiting_time]; it ends in
    [awaiting_duration], with the question for the duration and a time
    stored, only when the message contains a date, and always so for a
    message with a date in stage [awaiting_date]. *)
Theorem V3_time_is_never_asked (w : world) (s : Session) (message : text) :
  stage s = start \/ stage s = awaiting_date -> V3_consistent s ->
  let r := ServerV3.advance w s message in
  stage r.1 <> awaiting_time /\
  (stage r.1 = awaiting_date \/ stage r.1 = awaiting_duration) /\
  (stage r.1 = awaiting_duration ->
   Contains dateRe message /\ r.2 = ServerV3.askDuration /\
   truthy (data r.1 !! "time") = true) /\
  (stage s = awaiting_date -> Contains dateRe message ->
   stage r.1 = awaiting_duration).
Proof.
  intros Hs Hc r.
  assert (truthy (data s !! "date") = false) as Hd.
  { unfold V3_consistent in Hc. by destruct Hs as [E|E]; rewrite E in Hc. }
  pose proof (V3_collect_date w s message Hs Hd) as H. fold r in H.
  split; [|split; [|split]].
  - destruct H as [[H _]|[H _]]; rewrite H; discriminate.
  - destruct H as [[H _]|[H _]]; eauto.
  - intros Hdur. destruct H as [[H _]|(_ & H1 & _ & H2 & H3)]; [congruence|done].
  - intros Hst. by apply V3_date_read_as_time.
Qed.

Lemma V3_time_is_never_asked_witness :
  let w := exampleWorld true (Some true) in
  let r := ServerV3.advance w freshSession (js "am 08.11.2025 bitte") in
  stage r.1 <> awaiting_time /\
  (stage r.1 = awaiting_date \/ stage r.1 = awaiting_duration).
Proof.
  intros w r.
  destruct (V3_time_is_never_asked w freshSession (js "am 08.11.2025 bitte"))
    as (H1 & H2 & _).
  - left. reflexivity.
  - vm_compute. reflexivity.
  - split; [exact H1|exact H2].
Defined.

(* ===================================================================== *)
(** ** The time as part_002 stores it *)
(* ===================================================================== *)

Lemma time_shape m :
  Matches timeRe m ->
  exists h,
    Forall (fun c => isDigit c = true) h /\ 1 <= length h <= 2 /\
    (m = h \/
     exists mm, m = h ++ ":"%char :: mm /\
                Forall (fun c => isDigit c = true) mm /\ length mm = 2).
Proof.
  unfold timeRe, Chr. intros H.
  inversion H as [| ? ? h rest Hh Hrest | | |]; subst; clear H.
  inversion Hh as [| | | |? ? ? ? Hd Hlo Hhi]; subst; clear Hh.
  exists h. split; [done|]. split; [split; [done|by apply Hhi]|].
  inversion Hrest as [| |?|? ? Hopt|]; subst; clear Hrest.
  - left. by rewrite app_nil_r.
  - right.
    inversion Hopt as [| ? ? colon mm Hc Hmm | | |]; subst; clear Hopt.
    inversion Hc as [? c Hcc| | | |]; subst; clear Hc.
    apply isChar_eq in Hcc as ->.
    inversion Hmm as [| | | |? ? ? ? Hd' Hlo' Hhi']; subst; clear Hmm.
    exists mm. split; [done|]. split; [done|].
    specialize (Hhi' 2 eq_refl). lia.
Qed.

Lemma takeWhile_run p (h rest : text) :
  Forall (fun c => p c = true) h ->
  (forall c, head rest = Some c -> p c = false) ->
  takeWhile p (h ++ rest) = h /\ dropWhile p (h ++ rest) = rest.
Proof.
  intros Hh Hrest. induction Hh as [|c h Hc _ IH]; simpl.
  - destruct rest as [|c rest]; [done|]. simpl.
    by rewrite (Hrest c eq_refl).
  - rewrite Hc. destruct IH as [-> ->]. done.
Qed.

Lemma time_groups h mm :
  Forall (fun c => isDigit c = true) h ->
  hourGroup h = h /\ minuteGroup h = None /\
  hourGroup (h ++ ":"%char :: mm) = h /\
  minuteGroup (h ++ ":"%char :: mm) = Some mm.
Proof.
  intros Hh. unfold hourGroup, minuteGroup.
  destruct (takeWhile_run isDigit h [] Hh) as [H1 H2]; [done|].
  destruct (takeWhile_run isDigit h (":"%char :: mm) Hh) as [H3 H4].
  { by intros c [= <-]. }
  rewrite app_nil_r in H1, H2. by rewrite H1, H2, H3, H4.
Qed.


Lemma normalTime_cases m :
  Matches timeRe m ->
  exists h mm,
    Forall (fun c => isDigit c = true) h /\ 1 <= length h <= 2 /\
    Forall (fun c => isDigit c = true) mm /\ length mm = 2 /\
    SmsV2.normalTime m = h ++ ":"%char :: mm /\
    hourGroup m = h /\
    ((m = h /\ minuteGroup m = None /\ mm = js "00") \/
     (m = h ++ ":"%char :: mm /\ minuteGroup m = Some mm)).
Proof.
  intros H. destruct (time_shape m H) as (h & Hh & Hl & [->|(mm & -> & Hm & Hlm)]).
  - destruct (time_groups h [] Hh) as (H1 & H2 & _).
    exists h, (js "00"). unfold SmsV2.normalTime. rewrite H1, H2.
    repeat split; try done; try lia.
    + by repeat constructor.
    + left. done.
  - destruct (time_groups h mm Hh) as (_ & _ & H3 & H4).
    exists h, mm. unfold SmsV2.normalTime. rewrite H3, H4.
    repeat split; try done; try lia.
    + destruct mm; [discriminate Hlm|done].
    + right. done.
Qed.



(* ===================================================================== *)
(** ** [parseGermanDateTime] on what the handlers store *)
(* ===================================================================== *)

Lemma digit_no_sign c :
  isDigit c = true ->
  isChar "-" c = false /\ isChar "+" c = false /\ isChar "." c = false.
Proof. by_cases_on c. Qed.

Lemma digit_value_bound c : isDigit c = true -> (digitValue c <= 9)%N.
Proof. by_cases_on c. Qed.

Lemma parseInt_bound s : forall acc,
  Forall (fun c => isDigit c = true) s ->
  (fold_left (fun acc c => 10 * acc + digitValue c) s acc
     < (acc + 1) * 10 ^ N.of_nat (length s))%N.
Proof.
  induction s as [|c s IH]; intros acc Hs; simpl length.
  - simpl. lia.
  - apply Forall_cons in Hs as [Hc Hs]. cbn [fold_left].
    specialize (IH (10 * acc + digitValue c)%N Hs).
    apply digit_value_bound in Hc.
    rewrite Nat2N.inj_succ, N.pow_succ_r'. nia.
Qed.

Lemma parseInt_lt s :
  Forall (fun c => isDigit c = true) s ->
  (parseInt s < 10 ^ N.of_nat (length s))%N.
Proof.
  intros Hs. pose proof (parseInt_bound s 0%N Hs) as H.
  unfold parseInt. lia.
Qed.

Lemma parseInt10_digits s :
  s <> [] -> Forall (fun c => isDigit c = true) s ->
  parseInt10 s = Some (Z.of_N (parseInt s)).
Proof.
  intros Hne Hs. unfold parseInt10.
  destruct s as [|c s]; [done|].
  pose proof Hs as Hs'. apply Forall_cons in Hs' as [Hc _].
  rewrite (dropWhile_head _ _ _ (digit_not_space _ Hc)).
  destruct (digit_no_sign c Hc) as (-> & -> & _).
  destruct (takeWhile_run isDigit (c :: s) [] Hs) as [H _]; [done|].
  rewrite app_nil_r in H. by rewrite H.
Qed.

Lemma split_piece sep (s rest : text) c :
  Forall (fun x => isChar sep x = false) s -> isChar sep c = true ->
  split sep (s ++ c :: rest) = s :: split sep rest.
Proof.
  intros Hs Hc. induction Hs as [|x s Hx _ IH]; simpl.
  - by rewrite Hc.
  - by rewrite Hx, IH.
Qed.

Lemma split_last sep (s : text) :
  Forall (fun x => isChar sep x = false) s -> split sep s = [s].
Proof.
  induction 1 as [|x s Hx _ IH]; simpl; [done|]. by rewrite Hx, IH.
Qed.

Lemma date_parts m :
  Matches dateRe m ->
  exists s1 s2 s3,
    m = s1 ++ "."%char :: s2 ++ "."%char :: s3 /\
    Forall (fun c => isDigit c = true) s1 /\ 1 <= length s1 <= 2 /\
    Forall (fun c => isDigit c = true) s2 /\ 1 <= length s2 <= 2 /\
    Forall (fun c => isDigit c = true) s3 /\ length s3 = 4.
Proof.
  unfold dateRe, Chr. intros H.
  repeat match goal with
  | H : Matches (Seq _ _) _ |- _ => inversion H; subst; clear H
  end.
  repeat match goal with
  | H : Matches (Cls _) _ |- _ => inversion H; subst; clear H
  | H : Matches (Rep _ _ _) _ |- _ => inversion H; subst; clear H
  | H : isChar _ _ = true |- _ => apply isChar_eq in H as ->
  end.
  repeat match goal with
  | H : forall h, Some _ = Some h -> _ |- _ => specialize (H _ eq_refl)
  end.
  eexists _, _, _. split; [reflexivity|].
  repeat split; try done; lia.
Qed.

Lemma digits_no_dot s :
  Forall (fun c => isDigit c = true) s ->
  Forall (fun x => isChar "." x = false) s.
Proof.
  intros H. eapply Forall_impl; [exact H|]. intros c Hc. simpl in *.
  by destruct (digit_no_sign c Hc) as (_ & _ & ?).
Qed.

Lemma exec_time_whole t :
  Matches timeRe t -> exec timeRe t = Some (t, []).
Proof.
  intros H.
  destruct (time_shape t H) as (h & Hh & Hl & [->|(mm & -> & Hm & Hlm)]).
  - destruct h as [|a [|b [|? ?]]]; simpl in Hl; try lia.
    + apply Forall_cons in Hh as [Ha _].
      unfold exec, timeRe, Chr. simpl. rewrite Ha. simpl. done.
    + apply Forall_cons in Hh as [Ha Hh]. apply Forall_cons in Hh as [Hb _].
      unfold exec, timeRe, Chr. simpl. rewrite Ha, Hb. simpl. done.
  - destruct mm as [|x [|y [|? ?]]]; simpl in Hlm; try lia.
    apply Forall_cons in Hm as [Hx Hm]. apply Forall_cons in Hm as [Hy _].
    destruct h as [|a [|b [|? ?]]]; simpl in Hl; try lia.
    + apply Forall_cons in Hh as [Ha _].
      unfold exec, timeRe, Chr. simpl. rewrite Ha. simpl.
      rewrite Hx, Hy. simpl. done.
    + apply Forall_cons in Hh as [Ha Hh]. apply Forall_cons in Hh as [Hb _].
      unfold exec, timeRe, Chr. simpl. rewrite Ha, Hb. simpl.
      rewrite Hx, Hy. simpl. done.
Qed.

Lemma search_time_whole t :
  Matches timeRe t -> search timeRe t = Some (Found [] t []).
Proof.
  intros H. rewrite search_unfold. by rewrite (exec_time_whole t H).
Qed.

Lemma parse_time d t :
  Matches timeRe t ->
  parseGermanDateTime d t =
    let parts := parseInt10 <$> split "." d in
    DateArgs (mjoin (parts !! 2)) ((fun m => m - 1)%Z <$> mjoin (parts !! 1))
      (mjoin (parts !! 0)) (parseInt10 (hourGroup t))
      (match minuteGroup t with
       | Some (c :: g) => parseInt10 (c :: g)
       | _ => Some 0%Z
       end).
Proof.
  intros Ht. unfold parseGermanDateTime.
  by rewrite (search_time_whole t Ht).
Qed.

Lemma parse_date d :
  Matches dateRe d ->
  exists s1 s2 s3,
    parseInt10 <$> split "." d =
      [Some (Z.of_N (parseInt s1)); Some (Z.of_N (parseInt s2));
       Some (Z.of_N (parseInt s3))] /\
    (parseInt s1 < 100)%N /\ (parseInt s2 < 100)%N /\ (parseInt s3 < 10000)%N.
Proof.
  intros Hd.
  destruct (date_parts d Hd) as (s1 & s2 & s3 & -> & H1 & L1 & H2 & L2 & H3 & L3).
  exists s1, s2, s3.
  rewrite (split_piece _ s1 _ "."%char (digits_no_dot _ H1) eq_refl).
  rewrite (split_piece _ s2 _ "."%char (digits_no_dot _ H2) eq_refl).
  rewrite (split_last _ s3 (digits_no_dot _ H3)).
  cbn [fmap list_fmap].
  rewrite !parseInt10_digits; try done.
  2-4: intros ->; simpl in *; lia.
  split; [done|].
  pose proof (parseInt_lt s1 H1) as B1. pose proof (parseInt_lt s2 H2) as B2.
  pose proof (parseInt_lt s3 H3) as B3.
  assert (forall n, 1 <= n <= 2 -> (10 ^ N.of_nat n <= 100)%N) as Hpow.
  { intros n Hn'. assert (n = 1 \/ n = 2) as [->| ->] by lia; simpl; lia. }
  specialize (Hpow _ L1) as P1. specialize (Hpow _ L2) as P2.
  rewrite L3 in B3. change (10 ^ N.of_nat 4)%N with 10000%N in B3. lia.
Qed.

Lemma parse_clock t :
  Matches timeRe t ->
  exists hh mi,
    parseInt10 (hourGroup t) = Some (Z.of_N hh) /\
    match minuteGroup t with
    | Some (c :: g) => parseInt10 (c :: g)
    | _ => Some 0%Z
    end = Some (Z.of_N mi) /\
    hh = parseInt (hourGroup t) /\ (hh < 100)%N /\ (mi < 100)%N /\
    (minuteGroup t = None -> mi = 0%N).
Proof.
  intros Ht.
  destruct (normalTime_cases t Ht)
    as (h & mm & Hh & Hl & Hmm & Hlm & _ & Hg & Hcase).
  assert (forall n, 1 <= n <= 2 -> (10 ^ N.of_nat n <= 100)%N) as Hpow.
  { intros n Hn'. assert (n = 1 \/ n = 2) as [->| ->] by lia; simpl; lia. }
  pose proof (parseInt_lt h Hh) as Bh. specialize (Hpow _ Hl) as Ph.
  rewrite Hg. rewrite (parseInt10_digits h); [|intros ->; simpl in *; lia|done].
  destruct Hcase as [(-> & Hn & ->)|(-> & Hs)].
  - rewrite Hn. exists (parseInt h), 0%N. repeat split; try done; lia.
  - rewrite Hs. destruct mm as [|x mm]; [discriminate Hlm|].
    rewrite (parseInt10_digits (x :: mm)); [|done|done].
    exists (parseInt h), (parseInt (x :: mm)).
    pose proof (parseInt_lt (x :: mm) Hmm) as Hb. rewrite Hlm in Hb.
    change (10 ^ N.of_nat 2)%N with 100%N in Hb.
    repeat split; try done; try lia.
Qed.

(** X17.  [parseGermanDateTime] of the SMS servers never hands a [NaN] to
    [Date] on what the handlers store: for a stored date (a match of the
    date pattern) and a stored time (a match of the time pattern) the
    five arguments are the numbers written, the month less one and the
    minutes 0 when none were written.  Nothing bounds them beyond their
    digits: day, month, hour and minute go up to 99. *)
Theorem stored_date_and_time_parse (message1 message2 d t : text) :
  matchOf dateRe message1 = Some d -> matchOf timeRe message2 = Some t ->
  exists dd mo yy hh mi : Z,
    parseGermanDateTime d t =
      DateArgs (Some yy) (Some (mo - 1)%Z) (Some dd) (Some hh) (Some mi) /\
    (0 <= dd <= 99 /\ 0 <= mo <= 99 /\ 0 <= yy <= 9999 /\
     0 <= hh <= 99 /\ 0 <= mi <= 99)%Z /\
    hh = Z.of_N (parseInt (hourGroup t)) /\
    (minuteGroup t = None -> mi = 0%Z) /\
    parseGermanDateTime (js "99.99.2025") (js "99:99") =
      DateArgs (Some 2025%Z) (Some 98%Z) (Some 99%Z) (Some 99%Z) (Some 99%Z).
Proof.
  intros Hd Ht.
  apply matchOf_Some in Hd as [Hd _]. apply matchOf_Some in Ht as [Ht _].
  destruct (parse_date d Hd) as (s1 & s2 & s3 & Hp & B1 & B2 & B3).
  destruct (parse_clock t Ht) as (hh & mi & Hh & Hm & Hhh & Bh & Bm & Hn).
  exists (Z.of_N (parseInt s1)), (Z.of_N (parseInt s2)),
    (Z.of_N (parseInt s3)), (Z.of_N hh), (Z.of_N mi).
  split.
  { rewrite (parse_time d t Ht). cbv zeta. rewrite Hp, Hh, Hm. done. }
  split; [lia|]. split; [by rewrite Hhh|].
  split; [intros E; by rewrite (Hn E)|].
  vm_compute. reflexivity.
Qed.

Lemma stored_date_and_time_parse_witness :
  exists dd mo yy hh mi : Z,
    parseGermanDateTime (js "08.11.2025") (js "10") =
      DateArgs (Some yy) (Some (mo - 1)%Z) (Some dd) (Some hh) (Some mi) /\
    mi = 0%Z.
Proof.
  destruct (stored_date_and_time_parse (js "am 08.11.2025") (js "um 10 Uhr")
              (js "08.11.2025") (js "10"))
    as (dd & mo & yy & hh & mi & H1 & _ & _ & H2 & _).
  - reflexivity.
  - reflexivity.
  - exists dd, mo, yy, hh, mi. split; [exact H1|].
    apply H2. reflexivity.
Defined.

(** X18.  Storing the time as [h:mm] does not change what
    [parseGermanDateTime] reads: in the second server of part_003, whose
    handler stores the normalised time and whose [parseGermanDateTime]
    matches it again, the arguments for [Date] are those of the time as
    it was written. *)
Theorem normalised_time_parses_alike (message d m : text) :
  matchOf timeRe message = Some m ->
  Matches timeRe (SmsV2.normalTime m) /\
  parseGermanDateTime d (SmsV2.normalTime m) = parseGermanDateTime d m.
Proof.
  intros Hm. apply matchOf_Some in Hm as [HM _].
  destruct (normalTime_cases m HM)
    as (h & mm & Hh & Hl & Hmm & Hlm & Hn & Hg & Hcase).
  assert (Matches timeRe (SmsV2.normalTime m)) as HM'.
  { rewrite Hn. unfold timeRe.
    change (h ++ ":"%char :: mm) with (h ++ ([":"%char] ++ mm)).
    apply MSeq; [apply MRep; [done|lia|intros ? [= <-]; lia]|].
    apply MOptTake, MSeq; [by apply MCls|].
    apply MRep; [done|lia|intros ? [= <-]; lia]. }
  split; [done|].
  rewrite (parse_time d _ HM'), (parse_time d _ HM). cbv zeta.
  destruct (time_groups h mm Hh) as (A1 & A2 & A3 & A4).
  destruct Hcase as [(-> & Hnone & ->)|(-> & Hs)].
  - rewrite Hn, A3, A4, A1, A2. done.
  - by rewrite Hn.
Qed.

Lemma normalised_time_parses_alike_witness :
  parseGermanDateTime (js "08.11.2025") (SmsV2.normalTime (js "9")) =
    parseGermanDateTime (js "08.11.2025") (js "9").
Proof.
  refine (proj2 (normalised_time_parses_alike (js "um 9 Uhr")
                   (js "08.11.2025") (js "9") _)).
  reflexivity.
Defined.

(* ===================================================================== *)
(** ** [pad] and [toLocalISOStringWithOffset] *)
(* ===================================================================== *)

Lemma pad_two (n : Z) :
  (0 <= n <= 99)%Z ->
  length (pad n) = 2 /\ Forall (fun c => isDigit c = true) (pad n) /\
  Z.of_N (parseInt (pad n)) = n.
Proof.
  intros Hn.
  assert (forallb (fun k =>
            let n := Z.of_nat k in
            (length (pad n) =? 2)%nat && forallb isDigit (pad n) &&
            (Z.of_N (parseInt (pad n)) =? n)%Z) (seq 0 100) = true) as H
    by (vm_compute; reflexivity).
  rewrite forallb_forall in H.
  specialize (H (Z.to_nat n) ltac:(apply in_seq; lia)).
  cbv zeta in H. rewrite Z2Nat.id in H by lia.
  apply andb_true_iff in H as [H1 H3]. apply andb_true_iff in H1 as [H1 H2].
  split; [by apply Nat.eqb_eq|]. split; [|by apply Z.eqb_eq].
  apply Forall_forall. intros c Hc. rewrite forallb_forall in H2.
  apply H2. by apply list_elem_of_In.
Qed.

Lemma year_four (y : Z) :
  (1000 <= y <= 9999)%Z ->
  length (integerToText y) = 4 /\
  Forall (fun c => isDigit c = true) (integerToText y) /\
  Z.of_N (parseInt (integerToText y)) = y.
Proof.
  intros Hy.
  assert (forallb (fun k =>
            let n := (Z.of_nat k + 1000)%Z in
            (length (integerToText n) =? 4)%nat &&
            forallb isDigit (integerToText n) &&
            (Z.of_N (parseInt (integerToText n)) =? n)%Z)
            (seq 0 (90 * 100)) = true) as H
    by (vm_compute; reflexivity).
  rewrite forallb_forall in H.
  specialize (H (Z.to_nat (y - 1000)) ltac:(apply in_seq; lia)).
  cbv zeta in H. rewrite Z2Nat.id in H by lia.
  replace (y - 1000 + 1000)%Z with y in H by lia.
  apply andb_true_iff in H as [H1 H3]. apply andb_true_iff in H1 as [H1 H2].
  split; [by apply Nat.eqb_eq|]. split; [|by apply Z.eqb_eq].
  apply Forall_forall. intros c Hc. rewrite forallb_forall in H2.
  apply H2. by apply list_elem_of_In.
Qed.

Lemma year_short (y : Z) :
  (0 <= y <= 999)%Z -> length (integerToText y) <= 3.
Proof.
  intros Hy.
  assert (forallb (fun k => (length (integerToText (Z.of_nat k)) <=? 3)%nat)
            (seq 0 1000) = true) as H
    by (vm_compute; reflexivity).
  rewrite forallb_forall in H.
  specialize (H (Z.to_nat y) ltac:(apply in_seq; lia)).
  rewrite Z2Nat.id in H by lia. by apply Nat.leb_le.
Qed.

Lemma Matches_chr a r rest :
  Matches r rest -> Matches (Chr a · r) (a :: rest).
Proof.
  intros H. change (a :: rest) with ([a] ++ rest).
  apply MSeq; [|done]. apply MCls. unfold isChar. apply N.eqb_refl.
Qed.

Lemma Matches_digits n r s rest :
  length s = n -> Forall (fun c => isDigit c = true) s ->
  Matches r rest -> Matches (Rep isDigit n (Some n) · r) (s ++ rest).
Proof.
  intros Hl Hs H. apply MSeq; [|done].
  apply MRep; [done|lia|]. intros ? [= <-]. lia.
Qed.

(** X19.  [toLocalISOStringWithOffset] writes a date whose year has four
    digits as an RFC 3339 date-time with a numeric offset, [+] for the
    zones east of Greenwich, and the string reads back as the getters
    gave it: the year, the month counted from 1, day, hour, minute and
    second, and the offset in minutes with its sign.  A year below 1000
    is written with fewer than four digits, and the result is no RFC 3339
    date-time. *)
Theorem iso_string_is_rfc3339 (d : date) :
  inRange d ->
  let s := toLocalISOStringWithOffset d in
  ((1000 <= getFullYear d <= 9999)%Z ->
   Matches rfc3339Re s /\
   exists y mo dd hh mi ss sg oh om,
     s = y ++ js "-" ++ mo ++ js "-" ++ dd ++ js "T" ++ hh ++ js ":" ++
         mi ++ js ":" ++ ss ++ sg ++ oh ++ js ":" ++ om /\
     length y = 4 /\ length mo = 2 /\ length dd = 2 /\ length hh = 2 /\
     length mi = 2 /\ length ss = 2 /\ length sg = 1 /\ length oh = 2 /\
     length om = 2 /\
     Z.of_N (parseInt y) = getFullYear d /\
     Z.of_N (parseInt mo) = (getMonth d + 1)%Z /\
     Z.of_N (parseInt dd) = getDate d /\
     Z.of_N (parseInt hh) = getHours d /\
     Z.of_N (parseInt mi) = getMinutes d /\
     Z.of_N (parseInt ss) = getSeconds d /\
     offsetMinutes sg oh om = (- getTimezoneOffset d)%Z) /\
  ((0 <= getFullYear d <= 999)%Z -> ~ Matches rfc3339Re s).
Proof.
  intros (Hmo & Hdd & Hhh & Hmi & Hss & Htz) s.
  set (tz := (- getTimezoneOffset d)%Z) in *.
  assert (0 <= Z.abs tz / 60 <= 99)%Z as Hoh.
  { split; [apply Z.div_pos; lia|].
    apply Z.div_le_upper_bound; lia. }
  assert (0 <= Z.abs tz mod 60 <= 99)%Z as Hom.
  { pose proof (Z.mod_pos_bound (Z.abs tz) 60). lia. }
  destruct (pad_two (getMonth d + 1)) as (L1 & D1 & P1); [lia|].
  destruct (pad_two (getDate d)) as (L2 & D2 & P2); [lia|].
  destruct (pad_two (getHours d)) as (L3 & D3 & P3); [lia|].
  destruct (pad_two (getMinutes d)) as (L4 & D4 & P4); [lia|].
  destruct (pad_two (getSeconds d)) as (L5 & D5 & P5); [lia|].
  destruct (pad_two (Z.abs tz / 60)) as (L6 & D6 & P6); [lia|].
  destruct (pad_two (Z.abs tz mod 60)) as (L7 & D7 & P7); [lia|].
  split.
  - intros Hy. destruct (year_four _ Hy) as (L0 & D0 & P0). split.
    + subst s. unfold toLocalISOStringWithOffset, rfc3339Re. fold tz.
      change (js "-") with (["-"%char]). change (js "T") with (["T"%char]).
      change (js ":") with ([":"%char]).
      apply Matches_digits; [done..|]. apply Matches_chr.
      apply Matches_digits; [done..|]. apply Matches_chr.
      apply Matches_digits; [done..|]. apply Matches_chr.
      apply Matches_digits; [done..|]. apply Matches_chr.
      apply Matches_digits; [done..|]. apply Matches_chr.
      apply Matches_digits; [done..|].
      apply MSeq.
      { destruct (0 <=? tz)%Z; by apply MCls. }
      apply Matches_digits; [done..|]. apply Matches_chr.
      apply MRep; [done|lia|]. intros ? [= <-]. lia.
    + subst s. unfold toLocalISOStringWithOffset. fold tz.
      eexists _, _, _, _, _, _, _, _, _.
      split; [reflexivity|].
      repeat (split; [done|]).
      split; [by destruct (0 <=? tz)%Z|].
      repeat (split; [done|]).
      unfold offsetMinutes. rewrite P6, P7.
      pose proof (Z.div_mod (Z.abs tz) 60 ltac:(lia)) as Hdm.
      destruct (Z.leb_spec 0 tz) as [Hpos|Hneg].
      * rewrite bool_decide_eq_false_2 by discriminate. lia.
      * rewrite bool_decide_eq_true_2 by done. lia.
  - intros Hy HM. apply Matches_minLength in HM.
    pose proof (year_short _ Hy) as L0.
    subst s. unfold toLocalISOStringWithOffset in HM. fold tz in HM.
    rewrite !length_app, L1, L2, L3, L4, L5, L6, L7 in HM.
    assert (length (if (0 <=? tz)%Z then js "+" else js "-") = 1) as Hsg
      by (by destruct (0 <=? tz)%Z).
    rewrite Hsg in HM. simpl in HM. lia.
Qed.

Lemma iso_string_is_rfc3339_witness :
  Matches rfc3339Re
    (toLocalISOStringWithOffset (Date 2025 10 8 10 0 0 (-60))).
Proof.
  refine (proj1 (proj1 (iso_string_is_rfc3339
            (Date 2025 10 8 10 0 0 (-60)) _) _)).
  - unfold inRange. simpl. lia.
  - simpl. lia.
Defined.

(* ===================================================================== *)
(** ** A booking that fails in the SMS handlers *)
(* ===================================================================== *)

Lemma Lazy_book_throws w s :
  bookingThrows w SmsLazy.summary
    (SmsLazy.startEnd w (data s !! "date") (data s !! "time")
       (data s !! "duration")) (data s !! "email") ->
  SmsLazy.book w s = None.
Proof.
  unfold bookingThrows, SmsLazy.book.
  destruct (SmsLazy.startEnd _ _ _ _) as [[a b]|]; [|done].
  destruct (isSlotFree w a b) as [[]|]; [|done..].
  by intros ->.
Qed.

Lemma Lazy_handle_stuck (w : world) (sessions : store) user message s :
  sessions !! user = Some s -> stage s = creating ->
  tokens w = false \/
  bookingThrows w SmsLazy.summary
    (SmsLazy.startEnd w (data s !! "date") (data s !! "time")
       (data s !! "duration")) (data s !! "email") ->
  (SmsLazy.handleUserMessage w sessions user message).1 = sessions.
Proof.
  intros Hl Hst Hfail. unfold SmsLazy.handleUserMessage.
  rewrite (sessionOf_lookup _ _ _ Hl). unfold SmsLazy.advance.
  rewrite Hst.
  destruct (tokens w) eqn:Ht; simpl; [|by rewrite insert_id].
  destruct Hfail as [Hf|Hf]; [discriminate Hf|].
  rewrite (Lazy_book_throws _ _ Hf). simpl. by rewrite insert_id.
Qed.

Lemma Webhook_sms_stuck (w : world) (sessions : store) from Body s :
  sessions !! normalizePhone (DEFAULT_COUNTRY w) from = Some s ->
  stage s = creating ->
  tokens w = false \/
  bookingThrows w SmsWebhook.summary
    (SmsWebhook.startEnd w (data s !! "date") (data s !! "time")
       (data s !! "duration")) (data s !! "email") ->
  (SmsWebhook.incomingSms w sessions from Body).1 = sessions.
Proof.
  intros Hl Hst Hfail. unfold SmsWebhook.incomingSms.
  destruct from as [|c from]; [done|].
  rewrite (sessionOf_lookup _ _ _ Hl).
  rewrite (Webhook_advance_creating _ _ _ Hst).
  assert (exists r, SmsWebhook.book w s = (s, r)) as [r ->].
  { destruct (tokens w) eqn:Ht.
    - destruct Hfail as [Hf|Hf]; [discriminate Hf|].
      rewrite (Webhook_book_throws _ _ Ht Hf). eauto.
    - rewrite (Webhook_book_no_token _ _ Ht). eauto. }
  destruct (sendSms w _ _); simpl; by rewrite insert_id.
Qed.

(** X20.  A booking that fails in the SMS handlers is tried again and
    again: in [handleUserMessage] of the second server of part_003 and in
    the SMS route of part_001, a session in [creating] whose booking
    fails (no token, or an exception while computing the instants or in a
    calendar call) stays as it is, so as long as the world answers the
    same, no message of the user changes the session or its data. *)
Theorem failed_booking_is_retried (w : world) (sessions : store)
    (user : text) (s : Session) (messages : list text) :
  stage s = creating ->
  (sessions !! user = Some s ->
   tokens w = false \/
   bookingThrows w SmsLazy.summary
     (SmsLazy.startEnd w (data s !! "date") (data s !! "time")
        (data s !! "duration")) (data s !! "email") ->
   serve SmsLazy.handleUserMessage sessions
     ((fun m => (w, user, m)) <$> messages) = sessions) /\
  (sessions !! normalizePhone (DEFAULT_COUNTRY w) user = Some s ->
   tokens w = false \/
   bookingThrows w SmsWebhook.summary
     (SmsWebhook.startEnd w (data s !! "date") (data s !! "time")
        (data s !! "duration")) (data s !! "email") ->
   serve SmsWebhook.incomingSms sessions
     ((fun m => (w, user, m)) <$> messages) = sessions).
Proof.
  intros Hst. split; intros Hl Hfail.
  - induction messages as [|m rest IH]; simpl; [done|].
    by rewrite (Lazy_handle_stuck _ _ _ _ _ Hl Hst Hfail).
  - induction messages as [|m rest IH]; simpl; [done|].
    by rewrite (Webhook_sms_stuck _ _ _ _ _ Hl Hst Hfail).
Qed.

Lemma failed_booking_is_retried_witness :
  let w := exampleWorld true None in
  let sessions : store := {[ user1 := mkSession creating exampleData ]} in
  serve SmsLazy.handleUserMessage sessions
    ((fun m => (w, user1, m)) <$> [js "09.11.2025"; js "Hallo?"; js "11:00"])
    = sessions.
Proof.
  intros w sessions.
  refine (proj1 (failed_booking_is_retried w sessions user1
                   (mkSession creating exampleData)
                   [js "09.11.2025"; js "Hallo?"; js "11:00"] _) _ _).
  - reflexivity.
  - vm_compute. reflexivity.
  - right. vm_compute. exact I.
Defined.
